(** * Expression translation of the Malloy language: the nodes of
    [packages/malloy/src/lang/ast/ast-expr.ts]

    Every class of the source that extends [ExpressionDef] is one constructor
    of the inductive type [ExpressionDef]; its three virtual methods
    ([translation], [apply], [requestTranslation]) are the three fields of the
    method table [Methods] that the fixpoint [methods] builds by recursion on
    the tree.  Diagnostics ([MalloyElement.log]) are the output of a writer
    monad, JavaScript exceptions its error result. *)

From Stdlib Require Import Ascii String List Bool.
From stdpp Require Import base strings list option gmap.

Set Warnings "-register-all".
Local Open Scope string_scope.
Local Open Scope list_scope.

(** ** Values: fragments, data types, [ExprValue] *)

(** The closed set of data types of an expression value. *)
Inductive FieldValueType : Type :=
| TString | TNumber | TBoolean | TDate | TTimestamp
| TNull | TRegex | TError.

#[global] Instance FieldValueType_eq_dec : EqDecision FieldValueType.
Proof. solve_decision. Defined.

Definition typeName (t : FieldValueType) : string :=
  match t with
  | TString => "string"
  | TNumber => "number"
  | TBoolean => "boolean"
  | TDate => "date"
  | TTimestamp => "timestamp"
  | TNull => "null"
  | TRegex => "regular expression"
  | TError => "error"
  end.

Inductive TimeType : Type := TimeDate | TimeTimestamp.

Definition timeTypeOf (t : TimeType) : FieldValueType :=
  match t with TimeDate => TDate | TimeTimestamp => TTimestamp end.

Inductive CastType : Type :=
| CastString | CastNumber | CastBoolean | CastDate | CastTimestamp.

Definition castTypeOf (t : CastType) : FieldValueType :=
  match t with
  | CastString => TString
  | CastNumber => TNumber
  | CastBoolean => TBoolean
  | CastDate => TDate
  | CastTimestamp => TTimestamp
  end.

Inductive Timeframe : Type :=
| Second | Minute | Hour | Day | Week | Month | Quarter | Year.

(** A fragment is literal SQL text or one of three structured placeholders. *)
Inductive Fragment : Type :=
| FText (s : string)
| FField (path : string)
| FAggregate (function : string) (e : list Fragment)
             (structPath : option string)
| FFilterExpression (e : list Fragment) (filterList : list FilterCond)
with FilterCond : Type :=
| mkFilterCond (cond_value : list Fragment) (cond_aggregate : bool).

Definition cond_is_aggregate (c : FilterCond) : bool :=
  match c with mkFilterCond _ a => a end.

(** [FragType]: a data type with its aggregate flag. *)
Record FragType : Type := mkFragType {
  ft_dataType : FieldValueType;
  ft_aggregate : bool
}.

Record ExprValue : Type := mkExprValue {
  dataType : FieldValueType;
  aggregate : bool;
  value : list Fragment;
  timeframe : option Timeframe
}.

Definition fragTypeOf (v : ExprValue) : FragType :=
  mkFragType (dataType v) (aggregate v).

(** [{ ...t, value: frags }] for one of the predefined shapes of [FT]. *)
Definition withValue (t : FragType) (frags : list Fragment) : ExprValue :=
  mkExprValue (ft_dataType t) (ft_aggregate t) frags None.

(** ** The helpers of [ast-types.ts] *)

Module FT.

(** Modelled from the spec: the predefined type shapes of [ast-types.ts]
    (string, number, boolean, date, timestamp, null), none of them
    aggregate: the source spreads them into the values of literals and adds
    [aggregate: true] by hand where an aggregate operand is legal. *)
Definition stringT := mkFragType TString false.
Definition numberT := mkFragType TNumber false.
Definition boolT := mkFragType TBoolean false.
Definition dateT := mkFragType TDate false.
Definition timestampT := mkFragType TTimestamp false.
Definition nullT := mkFragType TNull false.
Definition anyAtomicT := [numberT; stringT; dateT; timestampT; boolT].

(** Modelled from the spec: [FT.eq] and [FT.in] of [ast-types.ts]; a value
    is legal when its data type, with its aggregate flag, appears in the
    list. *)
Definition eq (l r : FragType) : bool :=
  bool_decide (ft_dataType l = ft_dataType r)
  && Bool.eqb (ft_aggregate l) (ft_aggregate r).

Definition in_ (check : FragType) (from : list FragType) : bool :=
  existsb (fun okType => eq okType check) from.

(** Modelled from the spec: [FT.typeEq] of [ast-types.ts]; two values are
    type-equal when their data types match, the loose equality ([nullOk])
    also takes null as equal to anything, and the aggregate flag is never
    looked at. *)
Definition typeEq (l r : FragType) (nullOk : bool) : bool :=
  (nullOk
   && (bool_decide (ft_dataType l = TNull)
       || bool_decide (ft_dataType r = TNull)))
  || bool_decide (ft_dataType l = ft_dataType r).

(** Modelled from the spec: [FT.inspect] of [ast-types.ts]; the text of a
    type in a diagnostic is the name of its data type, several types are
    separated by commas. *)
Fixpoint inspect (types : list FragType) : string :=
  match types with
  | [] => ""
  | [t] => typeName (ft_dataType t)
  | t :: rest => typeName (ft_dataType t) +:+ "," +:+ inspect rest
  end.

End FT.

(** Modelled from the spec: [compose] of [ast-types.ts],
    [[...left, " op ", ...right]]. *)
Definition compose (left : list Fragment) (op : string)
    (right : list Fragment) : list Fragment :=
  left ++ [FText (" " +:+ op +:+ " ")] ++ right.

(** Modelled from the spec: [errorFor] of [ast-types.ts], an error-typed
    value with an empty fragment sequence. *)
Definition errorFor (reason : string) : ExprValue :=
  mkExprValue TError false [] None.

(** Modelled from the spec: [compressExpr] of [ast-types.ts]; adjacent
    literal-text fragments are merged into one, placeholders stay where they
    are. *)
Fixpoint compressExpr (expr : list Fragment) : list Fragment :=
  match expr with
  | [] => []
  | FText s :: rest =>
      match compressExpr rest with
      | FText s' :: rest' => FText (s +:+ s') :: rest'
      | rest' => FText s :: rest'
      end
  | f :: rest => f :: compressExpr rest
  end.

(** Modelled from the spec: [isAtomicFieldType] of [malloy_types.ts]; the
    atomic types are the five that a field of a table can have. *)
Definition isAtomicFieldType (t : FieldValueType) : bool :=
  match t with
  | TString | TNumber | TBoolean | TDate | TTimestamp => true
  | _ => false
  end.

(** ** The field space *)

(** What [FieldSpace.field(name).type()] answers. *)
Record FieldEntry : Type := mkFieldEntry {
  entry_type : FieldValueType;
  entry_aggregate : bool
}.

(** The symbol table is used through its lookup [field] only. *)
Definition FieldSpace : Type := gmap string FieldEntry.

Definition field (fs : FieldSpace) (name : string) : option FieldEntry :=
  fs !! name.

(** ** Effects: diagnostics and exceptions *)

(** A JavaScript exception: [throw new Error(msg)], or the [TypeError] of a
    property read on [undefined]. *)
Inductive Exn : Type :=
| Error (msg : string)
| TypeError (msg : string).

Inductive Result (A : Type) : Type :=
| Ok (a : A)
| Throw (x : Exn).
Arguments Ok {A} a.
Arguments Throw {A} x.

(** A computation writes diagnostics, in order, and returns or throws. *)
Definition M (A : Type) : Type := (list string * Result A)%type.

Definition ret {A} (a : A) : M A := ([], Ok a).
Definition throw {A} (x : Exn) : M A := ([], Throw x).
Definition log (msg : string) : M unit := ([msg], Ok tt).

Definition bind {A B} (m : M A) (k : A -> M B) : M B :=
  match m with
  | (l1, Ok a) => let '(l2, r) := k a in (l1 ++ l2, r)
  | (l1, Throw x) => (l1, Throw x)
  end.

Notation "x <- m ;; k" := (bind m (fun x => k))
  (at level 100, m at next level, right associativity).
Notation "m ;;; k" := (bind m (fun _ => k))
  (at level 100, right associativity).

Definition diagnostics {A} (m : M A) : list string := fst m.
Definition outcome {A} (m : M A) : Result A := snd m.

(** ** The tree of expression nodes *)

(** [Filter] of [ast-main.ts] is used through its method [getFilterList]
    only, so a filter is the table of that one method. *)
Record Filter : Type := mkFilter {
  getFilterList : FieldSpace -> M (list FilterCond)
}.

Inductive LogicalOp : Type := OpAnd | OpOr.
Inductive AddSubOp : Type := OpAdd | OpSub.
Inductive MulDivOp : Type := OpMul | OpDiv.
Inductive AltOp : Type := AltOr | AltAnd.

Definition logicalText (op : LogicalOp) : string :=
  match op with OpAnd => "and" | OpOr => "or" end.
Definition addSubText (op : AddSubOp) : string :=
  match op with OpAdd => "+" | OpSub => "-" end.
Definition mulDivText (op : MulDivOp) : string :=
  match op with OpMul => "*" | OpDiv => "/" end.
Definition altText (op : AltOp) : string :=
  match op with AltOr => "|" | AltAnd => "&" end.

Inductive ExpressionDef : Type :=
| ExprString (value : string)
| ExprNumber (n : string)
| ExprRegEx (regex : string)
| ExprTime (timeType : TimeType) (value : list Fragment + string)
           (aggregate : bool)
| ExprNot (expr : ExpressionDef)
| Boolean (value : bool)
| ExprLogicalOp (left : ExpressionDef) (op : LogicalOp) (right : ExpressionDef)
| ExprField (fieldName : string)
| ExprNULL
| ExprParens (expr : ExpressionDef)
| ExprMinus (expr : ExpressionDef)
| ExprAddSub (left : ExpressionDef) (op : AddSubOp) (right : ExpressionDef)
| ExprMulDiv (left : ExpressionDef) (op : MulDivOp) (right : ExpressionDef)
| ExprAlternationTree (left : ExpressionDef) (op : AltOp)
                      (right : ExpressionDef)
| ExprMin (expr : ExpressionDef)
| ExprMax (expr : ExpressionDef)
| ExprCountDistinct (expr : ExpressionDef)
| ExprCount (source : option string)
| ExprAvg (expr : option ExpressionDef) (source : option string)
| ExprSum (expr : option ExpressionDef) (source : option string)
| WhenClauseExpr (clause : WhenClause)
| ExprCase (when : list WhenClause) (elseClause : option ExpressionDef)
| ExprFilter (expr : ExpressionDef) (filter : Filter)
| ExprCast (expr : ExpressionDef) (castType : CastType) (safe : bool)
| Range (first : ExpressionDef) (last : ExpressionDef)
| Pick (choices : list PickWhen) (elsePick : option ExpressionDef)
with WhenClause : Type :=
| mkWhenClause (whenThis : ExpressionDef) (thenThis : ExpressionDef)
with PickWhen : Type :=
| mkPickWhen (pick : option ExpressionDef) (when : ExpressionDef).

(** ** Method tables *)

(** The "other" expression handed to [apply] and to [applyBinary]: the node
    with its [translation] method. *)
Record Operand : Type := mkOperand {
  operand_node : ExpressionDef;
  operand_translation : FieldSpace -> M ExprValue
}.

Record Methods : Type := mkMethods {
  m_translation : FieldSpace -> M ExprValue;
  m_apply : FieldSpace -> string -> Operand -> M ExprValue;
  m_requestTranslation : FieldSpace -> M (option ExprValue)
}.

(** The functions of the repository that this file calls and that live in
    other files: [applyBinary] and [nullsafeNot] of [apply-expr.ts], [body]
    of [field-path.ts]. *)
Record External : Type := mkExternal {
  applyBinary : FieldSpace -> Operand -> string -> Operand -> M ExprValue;
  nullsafeNot : list Fragment -> list Fragment;
  FieldPath_body : string -> string
}.

(** JavaScript truthiness of a string. *)
Definition truthy (s : string) : bool :=
  match s with EmptyString => false | _ => true end.

Definition truthySource (source : option string) : option string :=
  match source with
  | Some s => if truthy s then Some s else None
  | None => None
  end.

(** [ExpressionDef.typeCheck]: [elementType] and [legalChildTypes] are the
    fields of the node that checks. *)
Definition typeCheck (elementType : string) (legalChildTypes : list FragType)
    (eVal : ExprValue) : M bool :=
  if negb (FT.in_ (fragTypeOf eVal) legalChildTypes) then
    log ("'" +:+ elementType +:+ "' Can't use type "
         +:+ FT.inspect [fragTypeOf eVal]) ;;;
    ret false
  else ret true.

(** [{ ...v, aggregate: false }] *)
Definition notAggregate (v : ExprValue) : ExprValue :=
  mkExprValue (dataType v) false (value v) (timeframe v).

(** [{ ...v, value: frags }] *)
Definition setValue (v : ExprValue) (frags : list Fragment) : ExprValue :=
  mkExprValue (dataType v) (aggregate v) frags (timeframe v).

Section Nodes.

Context (ext : External).

(** *** [ExpressionDef]: the methods a class inherits unless it overrides *)

Definition ExpressionDef_apply (this : Operand)
    (fs : FieldSpace) (op : string) (left : Operand) : M ExprValue :=
  applyBinary ext fs left op this.

Definition ExpressionDef_requestTranslation
    (translation : FieldSpace -> M ExprValue)
    (fs : FieldSpace) : M (option ExprValue) :=
  v <- translation fs ;; ret (Some v).

(** A class that overrides [translation] only. *)
Definition plain (this : ExpressionDef)
    (translation : FieldSpace -> M ExprValue) : Methods :=
  mkMethods translation
            (ExpressionDef_apply (mkOperand this translation))
            (ExpressionDef_requestTranslation translation).

(** *** Literals *)

Definition ExprString_translation (value : string)
    (_ : FieldSpace) : M ExprValue :=
  ret (withValue FT.stringT [FText value]).

Definition ExprNumber_translation (n : string)
    (_ : FieldSpace) : M ExprValue :=
  ret (withValue FT.numberT [FText n]).

Definition ExprRegEx_translation (regex : string)
    (_ : FieldSpace) : M ExprValue :=
  ret (mkExprValue TRegex false [FText ("r'" +:+ regex +:+ "'")] None).

Definition ExprTime_translation (timeType : TimeType)
    (value : list Fragment + string) (aggregate : bool)
    (_ : FieldSpace) : M ExprValue :=
  ret (mkExprValue (timeTypeOf timeType) aggregate
         match value with
         | inr s => [FText ("'" +:+ s +:+ "'")]
         | inl frags => frags
         end
         None).

Definition Boolean_translation (value : bool)
    (_ : FieldSpace) : M ExprValue :=
  ret (withValue FT.boolT [FText (if value then "true" else "false")]).

Definition ExprNULL_translation (_ : FieldSpace) : M ExprValue :=
  ret (mkExprValue TNull false [FText "NULL"] None).

(** *** [ExprNot] *)

Definition ExprNot_translation (expr : Methods)
    (space : FieldSpace) : M ExprValue :=
  notThis <- m_translation expr space ;;
  ok <- typeCheck "not" [FT.boolT; FT.nullT] notThis ;;
  if ok : bool then
    ret (mkExprValue TBoolean (aggregate notThis)
           (nullsafeNot ext (value notThis)) (timeframe notThis))
  else ret (errorFor "not requires boolean").

(** *** [BinaryBoolean] and [ExprLogicalOp] *)

Definition BinaryBoolean_translation (elementType : string)
    (legalChildTypes : list FragType) (op : string)
    (left right : Methods) (space : FieldSpace) : M ExprValue :=
  l <- m_translation left space ;;
  r <- m_translation right space ;;
  okl <- typeCheck elementType legalChildTypes l ;;
  if okl : bool then
    okr <- typeCheck elementType legalChildTypes r ;;
    if okr : bool then
      ret (mkExprValue TBoolean (aggregate l || aggregate r)
             (compose (value l) op (value r)) None)
    else ret (errorFor "logial required boolean")
  else ret (errorFor "logial required boolean").

Definition ExprLogicalOp_translation (op : LogicalOp) :=
  BinaryBoolean_translation "logical operator"
    [FT.boolT; mkFragType TBoolean true] (logicalText op).

(** *** [ExprField] *)

Definition ExprField_translation (fieldName : string)
    (fs : FieldSpace) : M ExprValue :=
  match field fs fieldName with
  | Some typeMixin =>
      ret (mkExprValue (entry_type typeMixin) (entry_aggregate typeMixin)
             [FField fieldName] None)
  | None =>
      log ("Reference to undefined field '" +:+ fieldName) ;;;
      ret (errorFor ("undefined " +:+ fieldName))
  end.

(** *** [ExprParens] *)

Definition ExprParens_translation (expr : Methods)
    (fs : FieldSpace) : M ExprValue :=
  subExpr <- m_translation expr fs ;;
  ret (setValue subExpr ([FText "("] ++ value subExpr ++ [FText ")"])).

Definition ExprParens_methods (expr : Methods) : Methods :=
  mkMethods (ExprParens_translation expr)
            (m_apply expr)
            (m_requestTranslation expr).

(** *** [ExprMinus] *)

Definition ExprMinus_translation (expr : Methods)
    (fs : FieldSpace) : M ExprValue :=
  e <- m_translation expr fs ;;
  ok <- typeCheck "unary minus" [FT.numberT] e ;;
  if ok : bool then
    if Nat.ltb 1 (List.length (value e)) then
      ret (setValue e ([FText "-("] ++ value e ++ [FText ")"]))
    else ret (setValue e ([FText "-"] ++ value e))
  else ret (errorFor "negate requires number").

(** *** [BinaryNumeric]: [ExprAddSub] and [ExprMulDiv] *)

Definition BinaryNumeric_translation (left : Operand) (op : string)
    (right : Methods) (fs : FieldSpace) : M ExprValue :=
  m_apply right fs op left.

(** *** [ExprAlternationTree] *)

Definition ExprAlternationTree_apply (left : Methods) (op : AltOp)
    (right : Methods)
    (fs : FieldSpace) (applyOp : string) (expr : Operand) : M ExprValue :=
  choice1 <- m_apply left fs applyOp expr ;;
  choice2 <- m_apply right fs applyOp expr ;;
  ret (mkExprValue TBoolean (aggregate choice1 || aggregate choice2)
         (compose (value choice1)
                  match op with AltAnd => "and" | AltOr => "or" end
                  (value choice2))
         None).

Definition ExprAlternationTree_requestTranslation
    (_ : FieldSpace) : M (option ExprValue) :=
  ret None.

Definition ExprAlternationTree_translation
    (_ : FieldSpace) : M ExprValue :=
  log "Alternation tree has no value" ;;;
  ret (errorFor "no value from alternation tree").

Definition ExprAlternationTree_methods (left : Methods) (op : AltOp)
    (right : Methods) : Methods :=
  mkMethods ExprAlternationTree_translation
            (ExprAlternationTree_apply left op right)
            ExprAlternationTree_requestTranslation.

(** *** [ExprAggregateFunction] and its subclasses *)

(** [returns] of [ExprAggregateFunction], and its override in [ExprMin]
    and [ExprMax]. *)
Definition returnsNumber (_ : ExprValue) : FieldValueType := TNumber.
Definition returnsChild (forExpression : ExprValue) : FieldValueType :=
  dataType forExpression.

Definition ExprAggregateFunction_translation (func : string)
    (legalChildTypes : list FragType)
    (returns : ExprValue -> FieldValueType)
    (expr : option Methods) (source0 : option string)
    (fs : FieldSpace) : M ExprValue :=
  exprVal0 <- match expr with
              | Some e => v <- m_translation e fs ;; ret (Some v)
              | None => ret None
              end ;;
  let '(exprVal, source) :=
    match truthySource source0 with
    | Some src =>
        match field fs src with
        | Some footType =>
            if isAtomicFieldType (entry_type footType) then
              (Some (mkExprValue (entry_type footType)
                       (entry_aggregate footType) [FField src] None),
               let body := FieldPath_body ext src in
               if Nat.ltb 0 (String.length body) then Some body else None)
            else (exprVal0, source0)
        | None => (exprVal0, source0)
        end
    | None => (exprVal0, source0)
    end in
  match exprVal with
  | None =>
      log "Missing expression for aggregate function" ;;;
      ret (errorFor "agggregate without expression")
  | Some exprVal =>
      ok <- typeCheck func legalChildTypes (notAggregate exprVal) ;;
      if ok : bool then
        ret (mkExprValue (returns exprVal) true
               [FAggregate func (value exprVal) (truthySource source)]
               None)
      else ret (errorFor "aggregate type check")
  end.

Definition minMaxTypes : list FragType :=
  [FT.numberT; FT.stringT; FT.dateT; FT.timestampT].

Definition ExprMin_translation (expr : Methods) :=
  ExprAggregateFunction_translation "min" minMaxTypes returnsChild
    (Some expr) None.
Definition ExprMax_translation (expr : Methods) :=
  ExprAggregateFunction_translation "max" minMaxTypes returnsChild
    (Some expr) None.
Definition ExprCountDistinct_translation (expr : Methods) :=
  ExprAggregateFunction_translation "count_distinct" minMaxTypes
    returnsNumber (Some expr) None.
Definition ExprAvg_translation (expr : option Methods)
    (source : option string) :=
  ExprAggregateFunction_translation "avg" [FT.numberT] returnsNumber
    expr source.
Definition ExprSum_translation (expr : option Methods)
    (source : option string) :=
  ExprAggregateFunction_translation "sum" [FT.numberT] returnsNumber
    expr source.

Definition ExprCount_translation (source : option string)
    (_ : FieldSpace) : M ExprValue :=
  ret (mkExprValue TNumber true
         [FAggregate "count" [] (truthySource source)] None).

(** *** [WhenClause] *)

Definition WhenClause_translation (_ : FieldSpace) : M ExprValue :=
  throw (Error "expression did something unxpected with 'WHEN'").

(** *** [ExprCase] *)

Definition typeEqV (l r : ExprValue) (nullOk : bool) : bool :=
  FT.typeEq (fragTypeOf l) (fragTypeOf r) nullOk.

Definition inspect2 (l r : ExprValue) : string :=
  FT.inspect [fragTypeOf l; fragTypeOf r].

(** The variables of the loop of [ExprCase.translation]. *)
Record CaseState : Type := mkCaseState {
  cs_retType : option ExprValue;
  cs_aggregate : bool;
  cs_caseExpr : list Fragment
}.

(** A loop that can [return] from the method: [inl] is the value
    returned early, [inr] the state the loop ends in. *)
Fixpoint ExprCase_whens (when : list (Methods * Methods)) (st : CaseState)
    (fs : FieldSpace) : M (ExprValue + CaseState) :=
  match when with
  | [] => ret (inr st)
  | (whenThis, thenThis) :: rest =>
      whenExpr <- m_translation whenThis fs ;;
      thenExpr <- m_translation thenThis fs ;;
      let aggregate' :=
        cs_aggregate st || (aggregate whenExpr || aggregate thenExpr) in
      let caseExpr' :=
        cs_caseExpr st ++ [FText "WHEN "] ++ value whenExpr
                       ++ [FText " THEN "] ++ value thenExpr in
      if negb (bool_decide (dataType thenExpr = TNull)) then
        match cs_retType st with
        | Some retType =>
            if negb (typeEqV retType thenExpr false) then
              log ("Mismatched THEN clause types, "
                   +:+ inspect2 retType thenExpr) ;;;
              ret (inl (errorFor "then typecheck"))
            else
              ExprCase_whens rest
                (mkCaseState (Some thenExpr) aggregate' caseExpr') fs
        | None =>
            ExprCase_whens rest
              (mkCaseState (Some thenExpr) aggregate' caseExpr') fs
        end
      else
        ExprCase_whens rest
          (mkCaseState (cs_retType st) aggregate' caseExpr') fs
  end.

Definition ExprCase_else (elseClause : option Methods) (st : CaseState)
    (fs : FieldSpace) : M (ExprValue + CaseState) :=
  match elseClause with
  | Some elseClause =>
      elseExpr <- m_translation elseClause fs ;;
      let aggregate' := cs_aggregate st || aggregate elseExpr in
      let caseExpr' :=
        cs_caseExpr st ++ [FText " ELSE "] ++ value elseExpr in
      if negb (bool_decide (dataType elseExpr = TNull)) then
        match cs_retType st with
        | Some retType =>
            if negb (typeEqV retType elseExpr false) then
              log ("Mismatched ELSE clause type, "
                   +:+ inspect2 retType elseExpr) ;;;
              ret (inl (errorFor "else typecheck"))
            else ret (inr (mkCaseState (Some elseExpr) aggregate' caseExpr'))
        | None => ret (inr (mkCaseState (Some elseExpr) aggregate' caseExpr'))
        end
      else ret (inr (mkCaseState (cs_retType st) aggregate' caseExpr'))
  | None => ret (inr st)
  end.

Definition ExprCase_translation (when : list (Methods * Methods))
    (elseClause : option Methods) (fs : FieldSpace) : M ExprValue :=
  r <- ExprCase_whens when (mkCaseState None false [FText "CASE "]) fs ;;
  match r with
  | inl early => ret early
  | inr st =>
      r <- ExprCase_else elseClause st fs ;;
      match r with
      | inl early => ret early
      | inr st =>
          match cs_retType st with
          | None =>
              log "case statement type not computable" ;;;
              ret (errorFor "typeless case")
          | Some retType =>
              ret (mkExprValue (dataType retType) (cs_aggregate st)
                     (cs_caseExpr st ++ [FText " END"]) None)
          end
      end
  end.

(** *** [ExprFilter] *)

Definition ExprFilter_translation (expr : Methods) (filter : Filter)
    (fs : FieldSpace) : M ExprValue :=
  testList <- getFilterList filter fs ;;
  resultExpr <- m_translation expr fs ;;
  if existsb cond_is_aggregate testList then
    log "Cannot filter a field with an aggregate computation" ;;;
    ret (errorFor "no filter on aggregate")
  else if negb (aggregate resultExpr) then ret resultExpr
  else
    ok <- typeCheck "filtered expression"
            [FT.stringT; FT.numberT; FT.dateT; FT.timestampT]
            (notAggregate resultExpr) ;;
    if ok : bool then
      ret (setValue resultExpr
             [FFilterExpression (value resultExpr) testList])
    else
      log ("Cannot filter '" +:+ typeName (dataType resultExpr)
           +:+ "' data") ;;;
      ret (errorFor "cannot filter type").

(** *** [ExprCast] *)

(** [castTo]: the name of the cast type in the emitted SQL. *)
Definition castTo (castType : CastType) : string :=
  match castType with
  | CastNumber => "float64"
  | _ => typeName (castTypeOf castType)
  end.

Definition ExprCast_translation (expr : Methods) (castType : CastType)
    (safe : bool) (fs : FieldSpace) : M ExprValue :=
  e <- m_translation expr fs ;;
  let cast := if safe then "safe_cast" else "cast" in
  let castValue :=
    [FText (cast +:+ "(")] ++ value e
      ++ [FText (" as " +:+ castTo castType +:+ ")")] in
  let castValue :=
    if String.eqb (castTo castType) "timestamp"
       && bool_decide (dataType e = TDate)
    then [FText "TIMESTAMP("] ++ value e ++ [FText ")"]
    else castValue in
  if String.eqb (castTo castType) "date"
     && bool_decide (dataType e = TTimestamp)
  then
    ret (mkExprValue TDate (aggregate e)
           (compressExpr ([FText "DATE("] ++ value e ++ [FText ")"]))
           (Some Day))
  else
    ret (mkExprValue (castTypeOf castType) (aggregate e)
           (compressExpr castValue) (timeframe e)).

(** *** [Range] *)

Definition Range_apply (first last : Methods)
    (fs : FieldSpace) (op : string) (expr : Operand) : M ExprValue :=
  if String.eqb op "=" || String.eqb op "!=" then
    let op1 := if String.eqb op "=" then ">=" else "<" in
    let op2 := if String.eqb op "=" then "and" else "or" in
    let op3 := if String.eqb op "=" then "<" else ">=" in
    fromValue <- m_apply first fs op1 expr ;;
    toValue <- m_apply last fs op3 expr ;;
    ret (mkExprValue TBoolean (aggregate fromValue || aggregate toValue)
           (compose (value fromValue) op2 (value toValue)) None)
  else if String.eqb op ">" then m_apply last fs ">=" expr
  else if String.eqb op ">=" then m_apply first fs ">=" expr
  else if String.eqb op "<" then m_apply first fs "<" expr
  else if String.eqb op "<=" then m_apply last fs "<" expr
  else throw (Error "mysterious error in range computation").

Definition Range_requestTranslation
    (_ : FieldSpace) : M (option ExprValue) :=
  ret None.

Definition Range_translation (_ : FieldSpace) : M ExprValue :=
  ret (errorFor "a range is not a value").

Definition Range_methods (first last : Methods) : Methods :=
  mkMethods Range_translation (Range_apply first last)
            Range_requestTranslation.

(** *** [Pick] *)

(** A [PickWhen] with the method tables of its two children. *)
Definition PickWhenM : Type := (option Methods * Methods)%type.

(** [interface Choice] *)
Record Choice : Type := mkChoice {
  choice_pick : ExprValue;
  choice_when : ExprValue
}.

(** The [find] of [Pick.requestTranslation]: is there a choice without a
    value, or one whose [when] denies its translation?  The search stops at
    the first such choice. *)
Fixpoint Pick_findPartial (choices : list PickWhenM)
    (fs : FieldSpace) : M bool :=
  match choices with
  | [] => ret false
  | (None, _) :: _ => ret true
  | (Some _, when) :: rest =>
      r <- m_requestTranslation when fs ;;
      match r with
      | None => ret true
      | Some _ => Pick_findPartial rest fs
      end
  end.

(** First loop of [Pick.translation]: fills [choiceValues]. *)
Fixpoint Pick_choiceValues (choices : list PickWhenM)
    (choiceValues : list Choice)
    (fs : FieldSpace) : M (ExprValue + list Choice) :=
  match choices with
  | [] => ret (inr choiceValues)
  | (None, _) :: _ =>
      log "pick with no value can only be used with apply" ;;;
      ret (inl (errorFor "no value for partial pick"))
  | (Some pick, when) :: rest =>
      pickWhen <- m_requestTranslation when fs ;;
      match pickWhen with
      | None =>
          log "pick with partial when can only be used with apply" ;;;
          ret (inl (errorFor "partial when"))
      | Some _ =>
          p <- m_translation pick fs ;;
          w <- m_translation when fs ;;
          Pick_choiceValues rest (choiceValues ++ [mkChoice p w]) fs
      end
  end.

(** Second loop of [Pick.translation]: checks the types and writes the
    WHEN ... THEN ... parts. *)
Fixpoint Pick_cases (returnType : ExprValue) (choiceValues : list Choice)
    (anyAggregate : bool) (caseValue : list Fragment)
    : M (ExprValue + bool * list Fragment) :=
  match choiceValues with
  | [] => ret (inr (anyAggregate, caseValue))
  | aChoice :: rest =>
      if negb (FT.typeEq (fragTypeOf (choice_when aChoice)) FT.boolT false)
      then
        log ("Cannot generate value from pick. WHEN value of type "
             +:+ FT.inspect [fragTypeOf (choice_when aChoice)]) ;;;
        ret (inl (errorFor "pick when type"))
      else if negb (typeEqV returnType (choice_pick aChoice) true) then
        log ("pick value types do not match "
             +:+ inspect2 returnType (choice_pick aChoice)) ;;;
        ret (inl (errorFor "pick value type"))
      else
        Pick_cases returnType rest
          (anyAggregate
           || (aggregate (choice_pick aChoice)
               || aggregate (choice_when aChoice)))
          (caseValue ++ [FText " WHEN "] ++ value (choice_when aChoice)
                     ++ [FText " THEN "] ++ value (choice_pick aChoice))
  end.

Definition Pick_translation (choices : list PickWhenM)
    (elsePick : option Methods) (fs : FieldSpace) : M ExprValue :=
  match elsePick with
  | None =>
      log "'pick' has no value, must specify 'else' or use ':'" ;;;
      ret (errorFor "no value for partial pick")
  | Some elsePick =>
      r <- Pick_choiceValues choices [] fs ;;
      match r with
      | inl early => ret early
      | inr choiceValues =>
          match choiceValues with
          | [] =>
              (* choiceValues[0] is undefined, and .pick is read from it *)
              throw (TypeError
                "Cannot read properties of undefined (reading 'pick')")
          | first :: _ =>
              let returnType := choice_pick first in
              r <- Pick_cases returnType choiceValues
                     (aggregate returnType) [FText "CASE"] ;;
              match r with
              | inl early => ret early
              | inr (anyAggregate, caseValue) =>
                  elseValue <- m_translation elsePick fs ;;
                  let anyAggregate := anyAggregate || aggregate elseValue in
                  if negb (typeEqV returnType elseValue true) then
                    log ("pick value types do not match "
                         +:+ inspect2 returnType elseValue) ;;;
                    ret (errorFor "pick vlaue type mismatch")
                  else
                    ret (mkExprValue (dataType returnType) anyAggregate
                           (caseValue ++ [FText " ELSE "]
                              ++ value elseValue ++ [FText " END"])
                           None)
              end
          end
      end
  end.

Definition Pick_requestTranslation (choices : list PickWhenM)
    (elsePick : option Methods) (fs : FieldSpace) : M (option ExprValue) :=
  match elsePick with
  | None => ret None
  | Some _ =>
      found <- Pick_findPartial choices fs ;;
      if found : bool then ret None
      else v <- Pick_translation choices elsePick fs ;; ret (Some v)
  end.

(** The variables of the loop of [Pick.apply]. *)
Record ApplyState : Type := mkApplyState {
  as_returnType : option ExprValue;
  as_anyAggregate : bool;
  as_caseValue : list Fragment
}.

Fixpoint Pick_apply_choices (choices : list PickWhenM) (st : ApplyState)
    (fs : FieldSpace) (expr : Operand) : M (ExprValue + ApplyState) :=
  match choices with
  | [] => ret (inr st)
  | (pick, when) :: rest =>
      whenExpr <- m_apply when fs "=" expr ;;
      thenExpr <- match pick with
                  | Some pick => m_translation pick fs
                  | None => operand_translation expr fs
                  end ;;
      let anyAggregate :=
        as_anyAggregate st || (aggregate whenExpr || aggregate thenExpr) in
      let caseValue :=
        as_caseValue st ++ [FText " WHEN "] ++ value whenExpr
                        ++ [FText " THEN "] ++ value thenExpr in
      match as_returnType st with
      | Some returnType =>
          if negb (typeEqV returnType thenExpr true) then
            log ("pick value types do not match "
                 +:+ inspect2 returnType thenExpr) ;;;
            ret (inl (errorFor "pick value type"))
          else
            Pick_apply_choices rest
              (mkApplyState (Some returnType) anyAggregate caseValue)
              fs expr
      | None =>
          Pick_apply_choices rest
            (mkApplyState (Some thenExpr) anyAggregate caseValue) fs expr
      end
  end.

Definition Pick_apply (choices : list PickWhenM)
    (elsePick : option Methods)
    (fs : FieldSpace) (op : string) (expr : Operand) : M ExprValue :=
  r <- Pick_apply_choices choices (mkApplyState None false [FText "CASE"])
         fs expr ;;
  match r with
  | inl early => ret early
  | inr st =>
      elseVal <- match elsePick with
                 | Some elsePart => m_translation elsePart fs
                 | None => operand_translation expr fs
                 end ;;
      let returnType := default elseVal (as_returnType st) in
      if negb (typeEqV returnType elseVal true) then
        log ("else value types do not match "
             +:+ inspect2 returnType elseVal) ;;;
        ret (errorFor "pick else type")
      else
        ret (mkExprValue (dataType returnType)
               (as_anyAggregate st || aggregate elseVal)
               (as_caseValue st ++ [FText " ELSE "] ++ value elseVal
                  ++ [FText " END"])
               None)
  end.

Definition Pick_methods (choices : list PickWhenM)
    (elsePick : option Methods) : Methods :=
  mkMethods (Pick_translation choices elsePick)
            (Pick_apply choices elsePick)
            (Pick_requestTranslation choices elsePick).

(** *** Dispatch: the method table of a node *)

Fixpoint methods (e : ExpressionDef) : Methods :=
  let operand x := mkOperand x (m_translation (methods x)) in
  let whenClause c :=
    match c with
    | mkWhenClause whenThis thenThis => (methods whenThis, methods thenThis)
    end in
  let pickWhen c :=
    match c with
    | mkPickWhen pick when => (option_map methods pick, methods when)
    end in
  match e with
  | ExprString value => plain e (ExprString_translation value)
  | ExprNumber n => plain e (ExprNumber_translation n)
  | ExprRegEx regex => plain e (ExprRegEx_translation regex)
  | ExprTime timeType value aggregate =>
      plain e (ExprTime_translation timeType value aggregate)
  | ExprNot expr => plain e (ExprNot_translation (methods expr))
  | Boolean value => plain e (Boolean_translation value)
  | ExprLogicalOp lhs op rhs =>
      plain e (ExprLogicalOp_translation op (methods lhs) (methods rhs))
  | ExprField fieldName => plain e (ExprField_translation fieldName)
  | ExprNULL => plain e ExprNULL_translation
  | ExprParens expr => ExprParens_methods (methods expr)
  | ExprMinus expr => plain e (ExprMinus_translation (methods expr))
  | ExprAddSub lhs op rhs =>
      plain e (BinaryNumeric_translation (operand lhs) (addSubText op)
                 (methods rhs))
  | ExprMulDiv lhs op rhs =>
      plain e (BinaryNumeric_translation (operand lhs) (mulDivText op)
                 (methods rhs))
  | ExprAlternationTree lhs op rhs =>
      ExprAlternationTree_methods (methods lhs) op (methods rhs)
  | ExprMin expr => plain e (ExprMin_translation (methods expr))
  | ExprMax expr => plain e (ExprMax_translation (methods expr))
  | ExprCountDistinct expr =>
      plain e (ExprCountDistinct_translation (methods expr))
  | ExprCount source => plain e (ExprCount_translation source)
  | ExprAvg expr source =>
      plain e (ExprAvg_translation (option_map methods expr) source)
  | ExprSum expr source =>
      plain e (ExprSum_translation (option_map methods expr) source)
  | WhenClauseExpr _ => plain e WhenClause_translation
  | ExprCase when elseClause =>
      plain e (ExprCase_translation (List.map whenClause when)
                 (option_map methods elseClause))
  | ExprFilter expr filter =>
      plain e (ExprFilter_translation (methods expr) filter)
  | ExprCast expr castType safe =>
      plain e (ExprCast_translation (methods expr) castType safe)
  | Range first last => Range_methods (methods first) (methods last)
  | Pick choices elsePick =>
      Pick_methods (List.map pickWhen choices)
                   (option_map methods elsePick)
  end.

(** The three methods of a node, and the operand a node is for another. *)
Definition translation (e : ExpressionDef) : FieldSpace -> M ExprValue :=
  m_translation (methods e).

Definition operand (e : ExpressionDef) : Operand :=
  mkOperand e (translation e).

Definition apply (e : ExpressionDef) (fs : FieldSpace) (op : string)
    (left : ExpressionDef) : M ExprValue :=
  m_apply (methods e) fs op (operand left).

Definition requestTranslation (e : ExpressionDef)
    : FieldSpace -> M (option ExprValue) :=
  m_requestTranslation (methods e).

Definition pickWhenM (c : PickWhen) : PickWhenM :=
  match c with
  | mkPickWhen pick when => (option_map methods pick, methods when)
  end.

End Nodes.

Arguments plain ext this translation : assert.

(** ** A concrete set of the external functions

    The theorems below hold for every [External]; the checks on concrete
    inputs run the translation with this one. *)

Module Sample.

Definition isNumericOp (op : string) : bool :=
  String.eqb op "+" || String.eqb op "-"
  || String.eqb op "*" || String.eqb op "/".

Definition isComparison (op : string) : bool :=
  String.eqb op "=" || String.eqb op "!="
  || String.eqb op "<" || String.eqb op "<="
  || String.eqb op ">" || String.eqb op ">=".

Definition isLogical (op : string) : bool :=
  String.eqb op "and" || String.eqb op "or".

(** Modelled from the spec: [applyBinary] of [apply-expr.ts], for operands
    that are not temporal and not regular expressions: arithmetic requires
    both sides numeric and gives a number, a comparison of two values of
    the same type composes them and gives a boolean, [and] and [or] require
    both sides boolean; the aggregate flag is the OR of the operands'.
    Any other combination is a type mismatch: a diagnostic and an
    error-typed value. *)
Definition applyBinary (fs : FieldSpace) (left : Operand) (op : string)
    (right : Operand) : M ExprValue :=
  l <- operand_translation left fs ;;
  r <- operand_translation right fs ;;
  let composed t :=
    ret (mkExprValue t (aggregate l || aggregate r)
           (compose (value l) op (value r)) None) in
  let mismatch :=
    log ("'" +:+ op +:+ "' Can't use type "
         +:+ FT.inspect [fragTypeOf l; fragTypeOf r]) ;;;
    ret (errorFor "type mismatch") in
  if isNumericOp op then
    if bool_decide (dataType l = TNumber)
       && bool_decide (dataType r = TNumber)
    then composed TNumber else mismatch
  else if isComparison op then
    if bool_decide (dataType l = dataType r)
       && isAtomicFieldType (dataType l)
    then composed TBoolean else mismatch
  else if isLogical op then
    if bool_decide (dataType l = TBoolean)
       && bool_decide (dataType r = TBoolean)
    then composed TBoolean else mismatch
  else mismatch.

(** Modelled from the spec: [nullsafeNot] of [apply-expr.ts],
    [(x) is null or not (x)]. *)
Definition nullsafeNot (x : list Fragment) : list Fragment :=
  [FText "("] ++ x ++ [FText ") is null or not ("] ++ x ++ [FText ")"].

Fixpoint hasDot (s : string) : bool :=
  match s with
  | EmptyString => false
  | String c rest => Ascii.eqb c "."%char || hasDot rest
  end.

(** Modelled from the spec: [body] of [field-path.ts]; the dotted path
    without its leaf segment, empty when the path has one segment. *)
Fixpoint body (path : string) : string :=
  match path with
  | EmptyString => EmptyString
  | String c rest => if hasDot rest then String c (body rest) else EmptyString
  end.

Definition ext : External := mkExternal applyBinary nullsafeNot body.

(** A filter whose conditions are already translated. *)
Definition filterOf (conds : list FilterCond) : Filter :=
  mkFilter (fun _ => ret conds).

(** [FieldSpace{x: number, non-aggregate}] and an aggregate field. *)
Definition fs : FieldSpace :=
  {[ "x" := mkFieldEntry TNumber false;
     "sold" := mkFieldEntry TNumber true ]}.

End Sample.

(** The accessors of a [PickWhen] and of a [WhenClause]. *)
Definition pickOf (c : PickWhen) : option ExpressionDef :=
  match c with mkPickWhen pick _ => pick end.
Definition whenOf (c : PickWhen) : ExpressionDef :=
  match c with mkPickWhen _ when => when end.

(** [Result] is a functor. *)
Definition mapResult {A B} (f : A -> B) (r : Result A) : Result B :=
  match r with Ok a => Ok (f a) | Throw x => Throw x end.

(** The aggregate functions that take an expression, with the fields
    their classes set: the name [func], [legalChildTypes], and the type
    [returns] gives (a number for [sum], [avg] and [count_distinct], the type
    of the child for [min] and [max]). *)
Inductive AggregateKind : Type :=
| AggMin | AggMax | AggCountDistinct | AggAvg | AggSum.

Definition aggregateNode (k : AggregateKind) (e : ExpressionDef)
    : ExpressionDef :=
  match k with
  | AggMin => ExprMin e
  | AggMax => ExprMax e
  | AggCountDistinct => ExprCountDistinct e
  | AggAvg => ExprAvg (Some e) None
  | AggSum => ExprSum (Some e) None
  end.

Definition funcOf (k : AggregateKind) : string :=
  match k with
  | AggMin => "min"
  | AggMax => "max"
  | AggCountDistinct => "count_distinct"
  | AggAvg => "avg"
  | AggSum => "sum"
  end.

Definition legalChildTypesOf (k : AggregateKind) : list FragType :=
  match k with
  | AggAvg | AggSum => [FT.numberT]
  | _ => [FT.numberT; FT.stringT; FT.dateT; FT.timestampT]
  end.

Definition returnsOf (k : AggregateKind) (child : ExprValue)
    : FieldValueType :=
  match k with
  | AggMin | AggMax => dataType child
  | _ => TNumber
  end.

(** A computation that returns, that is, does not throw. *)
Definition returns {A} (m : M A) : Prop := exists a, outcome m = Ok a.

(** A choice of a [Pick] that keeps the pick from having a value of its own:
    it has no value to pick, or its [when] denies its translation. *)
Definition partialChoice (ext : External) (fs : FieldSpace) (c : PickWhen)
    : Prop :=
  pickOf c = None \/ outcome (requestTranslation ext (whenOf c) fs) = Ok None.

(** The calls [Pick.translation] makes on the children of the node. *)
Definition childrenReturn (ext : External) (fs : FieldSpace)
    (choices : list PickWhen) (elsePick : ExpressionDef) : Prop :=
  Forall (fun c =>
            returns (requestTranslation ext (whenOf c) fs)
            /\ returns (translation ext (whenOf c) fs)
            /\ forall p, pickOf c = Some p -> returns (translation ext p fs))
         choices
  /\ returns (translation ext elsePick fs).

(** What a cast emits, case by case: [DATE(e)] with the timeframe [day] for a
    timestamp cast to a date, [TIMESTAMP(e)] for a date cast to a timestamp,
    and [cast(e as T)] or [safe_cast(e as T)] otherwise, where [T] is the
    name [castTo] gives the cast type. *)
Definition castSpec (castType : CastType) (safe : bool) (e : ExprValue)
    : ExprValue :=
  match castType, dataType e with
  | CastDate, TTimestamp =>
      mkExprValue TDate (aggregate e)
        (compressExpr ([FText "DATE("] ++ value e ++ [FText ")"])) (Some Day)
  | CastTimestamp, TDate =>
      mkExprValue TTimestamp (aggregate e)
        (compressExpr ([FText "TIMESTAMP("] ++ value e ++ [FText ")"]))
        (timeframe e)
  | _, _ =>
      mkExprValue (castTypeOf castType) (aggregate e)
        (compressExpr
           ([FText ((if safe then "safe_cast" else "cast") +:+ "(")]
              ++ value e ++ [FText (" as " +:+ castTo castType +:+ ")")]))
        (timeframe e)
  end.

(** ** Further methods of [ast-expr.ts] *)

(** The node under the parentheses around it. *)
Fixpoint stripParens (e : ExpressionDef) : ExpressionDef :=
  match e with
  | ExprParens expr => stripParens expr
  | _ => e
  end.

(** The classes that override [requestTranslation] with a denial. *)
Definition isPartialNode (e : ExpressionDef) : Prop :=
  match e with
  | Range _ _ | ExprAlternationTree _ _ _ | Pick _ _ => True
  | _ => False
  end.

(** [ExpressionDef.thisValueToTimestamp] *)
Definition thisValueToTimestamp (this : ExpressionDef)
    (selfValue : ExprValue) : ExpressionDef :=
  if bool_decide (dataType selfValue = TTimestamp) then this
  else
    ExprTime TimeTimestamp
      (inl (compressExpr
              ([FText "TIMESTAMP("] ++ value selfValue ++ [FText ")"])))
      (aggregate selfValue).

(** [FieldTypeDef] of [malloy_types.ts], with the fields that
    [ExpressionFieldDef.fieldDef] writes; a field that is not written is
    [None]. *)
Record FieldTypeDef : Type := mkFieldTypeDef {
  fd_name : string;
  fd_type : FieldValueType;
  fd_e : option (list Fragment);
  fd_aggregate : option bool;
  fd_source : option string;
  fd_timeframe : option Timeframe
}.

(** Modelled from the spec: [isGranularResult] of [ast-types.ts]; a value
    is granular iff it has a timeframe. *)
Definition isGranularResult (v : ExprValue) : bool :=
  match timeframe v with Some _ => true | None => false end.

(** [ExpressionFieldDef.fieldDef] *)
Definition ExpressionFieldDef_fieldDef (ext : External)
    (expr : ExpressionDef) (exprSrc : option string)
    (fs : FieldSpace) (exprName : string) : M FieldTypeDef :=
  exprValue <- translation ext expr fs ;;
  let compressValue := compressExpr (value exprValue) in
  let retType := dataType exprValue in
  if isAtomicFieldType retType then
    ret (mkFieldTypeDef exprName retType
           (if Nat.ltb 0 (List.length compressValue)
            then Some compressValue else None)
           (if aggregate exprValue then Some true else None)
           (truthySource exprSrc)
           (if isGranularResult exprValue
               && bool_decide (retType = TTimestamp)
            then timeframe exprValue else None))
  else
    log ("Cannot define " +:+ exprName +:+ ", unexpected type "
         +:+ FT.inspect [fragTypeOf exprValue]) ;;;
    ret (mkFieldTypeDef ("error_defining_" +:+ exprName) TString
           None None None None).

(** The name of a cast type in the source language. *)
Definition castTypeName (t : CastType) : string := typeName (castTypeOf t).

(** [isCastType] *)
Definition isCastType (t : string) : bool :=
  existsb (String.eqb t) ["string"; "number"; "boolean"; "date"; "timestamp"].

(** The calls [ExprCase.translation] makes on the children of the node. *)
Definition whenThisOf (c : WhenClause) : ExpressionDef :=
  match c with mkWhenClause whenThis _ => whenThis end.
Definition thenThisOf (c : WhenClause) : ExpressionDef :=
  match c with mkWhenClause _ thenThis => thenThis end.

Definition whenClauseM (ext : External) (c : WhenClause)
    : Methods * Methods :=
  match c with
  | mkWhenClause whenThis thenThis =>
      (methods ext whenThis, methods ext thenThis)
  end.

(** The type kept by the loop of [ExprCase.translation] is never null. *)
Definition retTypeNotNull (st : CaseState) : Prop :=
  forall retType, cs_retType st = Some retType -> dataType retType <> TNull.

(** A computation that returns a value of the given data type. *)
Definition returnsType (t : FieldValueType) (m : M ExprValue) : Prop :=
  exists v, outcome m = Ok v /\ dataType v = t.

(** ** [duckdb_wasm_connection.ts]: splitting the columns of a struct

    [splitColumns] reads its argument one character at a time and compares
    each character with the space, the comma and the two parentheses only;
    [parens] is a JavaScript number, it can go below zero, and [!parens]
    holds at zero only. *)

Module DuckDB.

(** The variables of the loop of [splitColumns]. *)
Record SplitState : Type := mkSplitState {
  columns : list string;
  parens : Z;
  column : string;
  eatSpaces : bool
}.

(** The parenthesis count after the character [c]. *)
Definition countParen (c : ascii) (parens : Z) : Z :=
  if Ascii.eqb c "("%char then (parens + 1)%Z
  else if Ascii.eqb c ")"%char then (parens - 1)%Z
  else parens.

(** One turn of the loop, on the character [c]. *)
Definition step (st : SplitState) (c : ascii) : SplitState :=
  if eatSpaces st && Ascii.eqb c " "%char then st
  else if Z.eqb (parens st) 0 && Ascii.eqb c ","%char then
    mkSplitState (columns st ++ [column st]) (countParen c (parens st))
                 EmptyString true
  else
    mkSplitState (columns st) (countParen c (parens st))
                 (column st +:+ String c EmptyString) false.

Fixpoint loop (s : string) (st : SplitState) : SplitState :=
  match s with
  | EmptyString => st
  | String c rest => loop rest (step st c)
  end.

Definition start : SplitState := mkSplitState [] 0 EmptyString true.

(** [splitColumns] *)
Definition splitColumns (s : string) : list string :=
  let st := loop s start in
  columns st ++ [column st].

(** A column that does not begin with a space. *)
Definition noLeadingSpace (col : string) : Prop :=
  match col with
  | EmptyString => True
  | String c _ => c <> " "%char
  end.

(** The string without its spaces, and without the spaces it begins with. *)
Fixpoint dropSpaces (s : string) : string :=
  match s with
  | EmptyString => EmptyString
  | String c rest =>
      if Ascii.eqb c " "%char then dropSpaces rest
      else String c (dropSpaces rest)
  end.

Fixpoint dropLeadingSpaces (s : string) : string :=
  match s with
  | EmptyString => EmptyString
  | String c rest =>
      if Ascii.eqb c " "%char then dropLeadingSpaces rest else s
  end.

(** Does the character occur in the string? *)
Fixpoint occurs (c : ascii) (s : string) : bool :=
  match s with
  | EmptyString => false
  | String c' rest => Ascii.eqb c' c || occurs c rest
  end.

(** What every turn of the loop keeps: no column begins with a space, and
    the column being read is empty exactly while spaces are eaten. *)
Definition splitInv (st : SplitState) : Prop :=
  Forall noLeadingSpace (columns st)
  /\ noLeadingSpace (column st)
  /\ (eatSpaces st = false -> column st <> EmptyString).

(** The state after the loop has appended [t] to the column it reads. *)
Definition appended (st : SplitState) (p : Z) (t : string) : SplitState :=
  mkSplitState (columns st) p (column st +:+ t) false.

End DuckDB.

(** The expression an aggregate function aggregates, as the first step of
    [ExprAggregateFunction.translation] determines it: the field that a
    source names, when the source is not empty and the field is atomic, and
    the translation of the expression of the node otherwise. *)
Definition determinedExpression (fs : FieldSpace) (source : option string)
    (exprVal : option ExprValue) : option ExprValue :=
  match truthySource source with
  | Some src =>
      match field fs src with
      | Some entry =>
          if isAtomicFieldType (entry_type entry) then
            Some (mkExprValue (entry_type entry) (entry_aggregate entry)
                    [FField src] None)
          else exprVal
      | None => exprVal
      end
  | None => exprVal
  end.

(** The structure path of the aggregate fragment: the body of the source,
    when the source gave the field and its body is not empty, and the source
    itself, when it is not empty and gave no field. *)
Definition determinedStructPath (ext : External) (fs : FieldSpace)
    (source : option string) : option string :=
  match truthySource source with
  | Some src =>
      match field fs src with
      | Some entry =>
          if isAtomicFieldType (entry_type entry) then
            if Nat.ltb 0 (String.length (FieldPath_body ext src))
            then Some (FieldPath_body ext src) else None
          else Some src
      | None => Some src
      end
  | None => None
  end.

(** What an aggregate function answers for the expression it determined,
    after the diagnostics [l] of the translation of its own expression: the
    check looks at the data type of the expression only. *)
Definition aggregateResult (func : string) (legal : list FragType)
    (returns : ExprValue -> FieldValueType) (l : list string)
    (determined : option ExprValue) (structPath : option string)
    : M ExprValue :=
  match determined with
  | None =>
      (l ++ ["Missing expression for aggregate function"],
       Ok (errorFor "agggregate without expression"))
  | Some v =>
      if FT.in_ (mkFragType (dataType v) false) legal then
        (l, Ok (mkExprValue (returns v) true
                  [FAggregate func (value v) structPath] None))
      else
        (l ++ ["'" +:+ func +:+ "' Can't use type "
               +:+ typeName (dataType v)],
         Ok (errorFor "aggregate type check"))
  end.

(** The expression of a node, if it has one, translates to [exprVal] and
    logs [l]. *)
Definition translatesTo (ext : External) (fs : FieldSpace)
    (expr : option ExpressionDef) (l : list string)
    (exprVal : option ExprValue) : Prop :=
  match expr with
  | Some e => exists v, translation ext e fs = (l, Ok v) /\ exprVal = Some v
  | None => l = [] /\ exprVal = None
  end.

(** ** The laws of the monad used below *)

Lemma bind_ret {A B} (a : A) (k : A -> M B) : bind (ret a) k = k a.
Proof. unfold bind, ret. destruct (k a) as [l r]. reflexivity. Qed.

Lemma bind_throw {A B} (x : Exn) (k : A -> M B) : bind (throw x) k = throw x.
Proof. reflexivity. Qed.

Lemma bind_ok {A B} (l : list string) (a : A) (k : A -> M B) :
  bind (l, Ok a) k = (l ++ fst (k a), snd (k a)).
Proof. unfold bind. destruct (k a) as [l2 r]. reflexivity. Qed.

Lemma bind_thrown {A B} (l : list string) (x : Exn) (k : A -> M B) :
  bind (l, Throw x) k = (l, Throw x).
Proof. reflexivity. Qed.

(** ** Concrete scenarios *)

Example S1_field :
  translation Sample.ext (ExprField "x") Sample.fs
  = ([], Ok (mkExprValue TNumber false [FField "x"] None)).
Proof. vm_compute. reflexivity. Qed.

Example S2_arithmetic :
  translation Sample.ext (ExprAddSub (ExprField "x") OpAdd (ExprNumber "1"))
    Sample.fs
  = ([], Ok (mkExprValue TNumber false
               [FField "x"; FText " + "; FText "1"] None)).
Proof. vm_compute. reflexivity. Qed.

Example S3_range :
  apply Sample.ext (Range (ExprNumber "1") (ExprNumber "10")) Sample.fs "="
    (ExprField "x")
  = ([], Ok (mkExprValue TBoolean false
               [FField "x"; FText " >= "; FText "1"; FText " and ";
                FField "x"; FText " < "; FText "10"] None)).
Proof. vm_compute. reflexivity. Qed.

Example S4_alternation :
  apply Sample.ext (ExprAlternationTree (ExprNumber "1") AltOr (ExprNumber "2"))
    Sample.fs "=" (ExprField "x")
  = ([], Ok (mkExprValue TBoolean false
               [FField "x"; FText " = "; FText "1"; FText " or ";
                FField "x"; FText " = "; FText "2"] None)).
Proof. vm_compute. reflexivity. Qed.

Example S6_pick :
  translation Sample.ext
    (Pick [mkPickWhen (Some (ExprNumber "1")) (Boolean true)]
          (Some (ExprNumber "0")))
    Sample.fs
  = ([], Ok (mkExprValue TNumber false
               [FText "CASE"; FText " WHEN "; FText "true"; FText " THEN ";
                FText "1"; FText " ELSE "; FText "0"; FText " END"] None)).
Proof. vm_compute. reflexivity. Qed.

(** ** Partial expressions: [Range] and [ExprAlternationTree] *)

Section Partial.

Context (ext : External).

(** C1: [Range(first, last).apply(fs, op, v)] is, for [=], [v >= first]
    composed by [and] with [v < last]; for [!=], [v < first] composed by
    [or] with [v >= last]; for [>], [v >= last]; for [>=], [v >= first];
    for [<], [v < first]; for [<=], [v < last].  For [=] and [!=] the
    result is boolean and its aggregate flag is the OR of the flags of the
    two applications. *)
Theorem Range_apply_spec (first last v : ExpressionDef) (fs : FieldSpace) :
  apply ext (Range first last) fs "=" v
  = (fromValue <- apply ext first fs ">=" v ;;
     toValue <- apply ext last fs "<" v ;;
     ret (mkExprValue TBoolean (aggregate fromValue || aggregate toValue)
            (compose (value fromValue) "and" (value toValue)) None))
  /\ apply ext (Range first last) fs "!=" v
     = (fromValue <- apply ext first fs "<" v ;;
        toValue <- apply ext last fs ">=" v ;;
        ret (mkExprValue TBoolean (aggregate fromValue || aggregate toValue)
               (compose (value fromValue) "or" (value toValue)) None))
  /\ apply ext (Range first last) fs ">" v = apply ext last fs ">=" v
  /\ apply ext (Range first last) fs ">=" v = apply ext first fs ">=" v
  /\ apply ext (Range first last) fs "<" v = apply ext first fs "<" v
  /\ apply ext (Range first last) fs "<=" v = apply ext last fs "<" v.
Proof. repeat split. Qed.

(** C2: [ExprAlternationTree(l, op, r).apply(fs, applyOp, other)] is
    [other applyOp l] composed with [other applyOp r], by [or] when [op]
    is [|] and by [and] when it is [&]; the result is boolean and its
    aggregate flag is the OR of the flags of the two choices. *)
Theorem ExprAlternationTree_apply_distributes
    (l r other : ExpressionDef) (op : AltOp) (applyOp : string)
    (fs : FieldSpace) :
  apply ext (ExprAlternationTree l op r) fs applyOp other
  = (choice1 <- apply ext l fs applyOp other ;;
     choice2 <- apply ext r fs applyOp other ;;
     ret (mkExprValue TBoolean (aggregate choice1 || aggregate choice2)
            (compose (value choice1)
                     match op with AltOr => "or" | AltAnd => "and" end
                     (value choice2))
            None)).
Proof. destruct op; reflexivity. Qed.

(** On operands whose applications return, the two results above as values:
    the diagnostics of the two applications follow each other. *)
Lemma Range_apply_eq_value (first last v : ExpressionDef) (fs : FieldSpace)
    (l1 l2 : list string) (fromValue toValue : ExprValue) :
  apply ext first fs ">=" v = (l1, Ok fromValue) ->
  apply ext last fs "<" v = (l2, Ok toValue) ->
  apply ext (Range first last) fs "=" v
  = (l1 ++ l2,
     Ok (mkExprValue TBoolean (aggregate fromValue || aggregate toValue)
           (value fromValue ++ [FText " and "] ++ value toValue) None)).
Proof.
  intros H1 H2. unfold apply in *.
  cbn [methods Range_methods m_apply]. unfold Range_apply.
  cbn [String.eqb Ascii.eqb Bool.eqb orb].
  rewrite H1, bind_ok, H2, bind_ok. cbn. rewrite app_nil_r. reflexivity.
Qed.

Lemma ExprAlternationTree_apply_value
    (l r other : ExpressionDef) (op : AltOp) (applyOp : string)
    (fs : FieldSpace) (l1 l2 : list string) (choice1 choice2 : ExprValue) :
  apply ext l fs applyOp other = (l1, Ok choice1) ->
  apply ext r fs applyOp other = (l2, Ok choice2) ->
  apply ext (ExprAlternationTree l op r) fs applyOp other
  = (l1 ++ l2,
     Ok (mkExprValue TBoolean (aggregate choice1 || aggregate choice2)
           (value choice1
              ++ [FText match op with AltOr => " or " | AltAnd => " and " end]
              ++ value choice2)
           None)).
Proof.
  intros H1 H2. unfold apply in *.
  cbn [methods ExprAlternationTree_methods m_apply].
  unfold ExprAlternationTree_apply.
  rewrite H1, bind_ok, H2, bind_ok. cbn. rewrite app_nil_r.
  destruct op; reflexivity.
Qed.

End Partial.

(** ** Diagnostics and error-typed values *)

Section Errors.

Context (ext : External).

Lemma typeCheck_legal (elementType : string) (legal : list FragType)
    (v : ExprValue) :
  FT.in_ (fragTypeOf v) legal = true ->
  typeCheck elementType legal v = ([], Ok true).
Proof. intros H. unfold typeCheck. rewrite H. reflexivity. Qed.







(** C3, at the node that breaks it: the translation of a [Range] is
    error-typed and no diagnostic is logged. *)
Theorem Range_translation_logs_nothing
    (first last : ExpressionDef) (fs : FieldSpace) :
  translation ext (Range first last) fs
  = ([], Ok (errorFor "a range is not a value"))
  /\ dataType (errorFor "a range is not a value") = TError.
Proof. split; reflexivity. Qed.

(** The other partial expression, the alternation tree, does log. *)
Lemma ExprAlternationTree_translation_logs
    (l r : ExpressionDef) (op : AltOp) (fs : FieldSpace) :
  translation ext (ExprAlternationTree l op r) fs
  = (["Alternation tree has no value"],
     Ok (errorFor "no value from alternation tree")).
Proof. reflexivity. Qed.

Lemma truthySource_body (body : string) :
  truthySource (if Nat.ltb 0 (String.length body) then Some body else None)
  = (if Nat.ltb 0 (String.length body) then Some body else None).
Proof. destruct body; reflexivity. Qed.

(** [ExprAggregateFunction.translation], once the expression of the node
    has been translated. *)
Lemma ExprAggregateFunction_result (func : string) (legal : list FragType)
    (returns : ExprValue -> FieldValueType)
    (expr : option Methods) (source : option string) (fs : FieldSpace)
    (l : list string) (exprVal : option ExprValue) :
  match expr with
  | Some e => exists v, m_translation e fs = (l, Ok v) /\ exprVal = Some v
  | None => l = [] /\ exprVal = None
  end ->
  ExprAggregateFunction_translation ext func legal returns expr source fs
  = aggregateResult func legal returns l
      (determinedExpression fs source exprVal)
      (determinedStructPath ext fs source).
Proof.
  intros Hexpr. unfold ExprAggregateFunction_translation.
  assert (Hrun : forall (k : option ExprValue -> M ExprValue),
             bind match expr with
                  | Some e => v <- m_translation e fs ;; ret (Some v)
                  | None => ret None
                  end k
             = (l ++ fst (k exprVal), snd (k exprVal))).
  { intros k. destruct expr as [e|].
    - destruct Hexpr as (v & Hv & ->). rewrite Hv, bind_ok.
      cbn [ret fst snd]. rewrite app_nil_r. apply bind_ok.
    - destruct Hexpr as [-> ->]. rewrite bind_ret.
      destruct (k None); reflexivity. }
  rewrite Hrun. clear Hrun.
  assert (Hend : forall (determined : option ExprValue)
                        (local structPath : option string),
             truthySource local = structPath ->
             (l ++ fst (match determined with
                        | None =>
                            log "Missing expression for aggregate function" ;;;
                            ret (errorFor "agggregate without expression")
                        | Some v =>
                            ok <- typeCheck func legal (notAggregate v) ;;
                            if ok : bool then
                              ret (mkExprValue (returns v) true
                                     [FAggregate func (value v)
                                        (truthySource local)] None)
                            else ret (errorFor "aggregate type check")
                        end),
              snd (match determined with
                   | None =>
                       log "Missing expression for aggregate function" ;;;
                       ret (errorFor "agggregate without expression")
                   | Some v =>
                       ok <- typeCheck func legal (notAggregate v) ;;
                       if ok : bool then
                         ret (mkExprValue (returns v) true
                                [FAggregate func (value v)
                                   (truthySource local)] None)
                       else ret (errorFor "aggregate type check")
                   end))
             = aggregateResult func legal returns l determined structPath).
  { intros determined local structPath <-. unfold aggregateResult.
    destruct determined as [v|]; [|reflexivity].
    unfold typeCheck.
    change (fragTypeOf (notAggregate v))
      with (mkFragType (dataType v) false).
    destruct (FT.in_ (mkFragType (dataType v) false) legal);
      cbn; rewrite ?app_nil_r; reflexivity. }
  unfold determinedExpression, determinedStructPath.
  destruct (truthySource source) as [src|] eqn:Hsrc.
  - destruct (field fs src) as [entry|].
    + destruct (isAtomicFieldType (entry_type entry)).
      * exact (Hend (Some (mkExprValue (entry_type entry)
                             (entry_aggregate entry) [FField src] None))
                    _ _ (truthySource_body (FieldPath_body ext src))).
      * exact (Hend exprVal source (Some src) Hsrc).
    + exact (Hend exprVal source (Some src) Hsrc).
  - exact (Hend exprVal source None Hsrc).
Qed.

(** C5, as the code has it: an aggregate function aggregates the expression
    it determines, which for [sum] and [avg] with a source that names an
    atomic field is that field, whatever expression the node has, and is
    the translation of the expression of the node otherwise.  Its type
    check looks at the data type of that expression only, the aggregate
    flag being set to false before the check.  When the data type is legal
    the result is aggregate, of type [returns] of the expression, and
    nothing more is logged, also when the expression is itself aggregate;
    when it is not legal the diagnostic "'func' Can't use type ..." is
    logged and the result is error-typed; with no expression at all the
    diagnostic is "Missing expression for aggregate function". *)
Theorem aggregate_function_checks_dataType_only
    (expr : option ExpressionDef) (source : option string) (fs : FieldSpace)
    (l : list string) (exprVal : option ExprValue) :
  translatesTo ext fs expr l exprVal ->
  (forall k e,
      expr = Some e ->
      translation ext (aggregateNode k e) fs
      = aggregateResult (funcOf k) (legalChildTypesOf k) (returnsOf k) l
          exprVal None)
  /\ translation ext (ExprSum expr source) fs
     = aggregateResult "sum" [FT.numberT] returnsNumber l
         (determinedExpression fs source exprVal)
         (determinedStructPath ext fs source)
  /\ translation ext (ExprAvg expr source) fs
     = aggregateResult "avg" [FT.numberT] returnsNumber l
         (determinedExpression fs source exprVal)
         (determinedStructPath ext fs source).
Proof.
  intros Hexpr. unfold translatesTo, translation in *.
  assert (Hexpr' : match option_map (methods ext) expr with
                   | Some e =>
                       exists v, m_translation e fs = (l, Ok v)
                                 /\ exprVal = Some v
                   | None => l = [] /\ exprVal = None
                   end) by (destruct expr; exact Hexpr).
  split; [|split].
  - intros k e ->. cbn [option_map] in Hexpr'.
    destruct k; cbn [aggregateNode methods plain m_translation option_map];
      apply (ExprAggregateFunction_result _ _ _ (Some (methods ext e)) None);
      exact Hexpr'.
  - cbn [methods plain m_translation].
    apply ExprAggregateFunction_result. exact Hexpr'.
  - cbn [methods plain m_translation].
    apply ExprAggregateFunction_result. exact Hexpr'.
Qed.

(** [ExprField] on a name the field space knows. *)
Lemma ExprField_hit (n : string) (fs : FieldSpace) (entry : FieldEntry) :
  field fs n = Some entry ->
  translation ext (ExprField n) fs
  = ([], Ok (mkExprValue (entry_type entry) (entry_aggregate entry)
               [FField n] None)).
Proof.
  intros H. unfold translation. cbn [methods plain m_translation].
  unfold ExprField_translation. rewrite H. reflexivity.
Qed.

(** [ExprField] on a name the field space does not know. *)
Lemma ExprField_miss (n : string) (fs : FieldSpace) :
  field fs n = None ->
  translation ext (ExprField n) fs
  = (["Reference to undefined field '" +:+ n],
     Ok (errorFor ("undefined " +:+ n))).
Proof.
  intros H. unfold translation. cbn [methods plain m_translation].
  unfold ExprField_translation. rewrite H. reflexivity.
Qed.

End Errors.

(** C6, at an undefined name: the diagnostic that is logged ends after the
    name, it has no closing quote. *)
Theorem ExprField_undefined_message :
  translation Sample.ext (ExprField "y") Sample.fs
  = (["Reference to undefined field 'y"], Ok (errorFor "undefined y"))
  /\ "Reference to undefined field 'y" <> "Reference to undefined field 'y'".
Proof. split; [vm_compute; reflexivity | discriminate]. Qed.



(** The sum of a field that is already aggregate, and a sum whose source
    takes the place of its expression. *)
Lemma aggregate_function_checks_dataType_only_witness :
  translatesTo Sample.ext Sample.fs (Some (ExprField "sold")) []
    (Some (mkExprValue TNumber true [FField "sold"] None))
  /\ translation Sample.ext (ExprSum (Some (ExprField "sold")) None) Sample.fs
     = ([], Ok (mkExprValue TNumber true
                  [FAggregate "sum" [FField "sold"] None] None))
  /\ translation Sample.ext (ExprMin (ExprField "sold")) Sample.fs
     = ([], Ok (mkExprValue TNumber true
                  [FAggregate "min" [FField "sold"] None] None))
  /\ translation Sample.ext (ExprSum (Some (ExprField "sold")) (Some "x"))
       Sample.fs
     = ([], Ok (mkExprValue TNumber true
                  [FAggregate "sum" [FField "x"] None] None)).
Proof.
  assert (H : translatesTo Sample.ext Sample.fs (Some (ExprField "sold")) []
                (Some (mkExprValue TNumber true [FField "sold"] None))).
  { eexists. split; reflexivity. }
  split; [exact H|].
  split; [|split].
  - exact (proj1 (proj2 (aggregate_function_checks_dataType_only Sample.ext
                           (Some (ExprField "sold")) None Sample.fs [] _ H))).
  - exact (proj1 (aggregate_function_checks_dataType_only Sample.ext
                    (Some (ExprField "sold")) None Sample.fs [] _ H)
             AggMin (ExprField "sold") eq_refl).
  - exact (proj1 (proj2 (aggregate_function_checks_dataType_only Sample.ext
                           (Some (ExprField "sold")) (Some "x") Sample.fs []
                           _ H))).
Defined.

(** C5 as the spec states it fails: an aggregate of an aggregate number is
    not an error. *)
Lemma aggregate_of_aggregate_not_error :
  ~ (forall (e : ExpressionDef) (fs : FieldSpace) (l : list string)
            (v : ExprValue),
       translation Sample.ext e fs = (l, Ok v) ->
       aggregate v = true ->
       exists l' v',
         translation Sample.ext (ExprSum (Some e) None) fs = (l', Ok v')
         /\ dataType v' = TError).
Proof.
  intros H.
  destruct (H (ExprField "sold") Sample.fs []
              (mkExprValue TNumber true [FField "sold"] None))
    as (l' & v' & Heq & Herr); [vm_compute; reflexivity | reflexivity |].
  vm_compute in Heq. inversion Heq; subst. discriminate Herr.
Qed.

(** ** [ExprFilter] and [ExprCast] *)

Section FilterAndCast.

Context (ext : External).

Lemma existsb_none {A} (f : A -> bool) (l : list A) :
  (forall x, In x l -> f x = false) -> existsb f l = false.
Proof.
  intros H. induction l as [|x l IH]; [reflexivity|].
  simpl. rewrite (H x (or_introl eq_refl)), IH; [reflexivity|].
  intros y Hy. apply H. right. exact Hy.
Qed.

(** C7: when no condition of the filter is aggregate and the translation
    of [e] is not aggregate, the translation of [ExprFilter(e, filter)] is
    the translation of [e]; when some condition is aggregate, it logs
    "Cannot filter a field with an aggregate computation" and is
    error-typed, whatever [e] translates to. *)
Theorem ExprFilter_identity_or_aggregate_error
    (e : ExpressionDef) (filter : Filter) (fs : FieldSpace)
    (lf le : list string) (testList : list FilterCond) (v : ExprValue) :
  getFilterList filter fs = (lf, Ok testList) ->
  translation ext e fs = (le, Ok v) ->
  ((forall c, In c testList -> cond_is_aggregate c = false) ->
   aggregate v = false ->
   translation ext (ExprFilter e filter) fs = (lf ++ le, Ok v))
  /\ ((exists c, In c testList /\ cond_is_aggregate c = true) ->
      translation ext (ExprFilter e filter) fs
      = (lf ++ le ++ ["Cannot filter a field with an aggregate computation"],
         Ok (errorFor "no filter on aggregate"))).
Proof.
  intros Hf He. unfold translation in *.
  cbn [methods plain m_translation]. unfold ExprFilter_translation.
  rewrite Hf, bind_ok, He, bind_ok. cbn [fst snd].
  split.
  - intros Hnone Hagg. rewrite (existsb_none _ _ Hnone), Hagg.
    cbn. rewrite app_nil_r. reflexivity.
  - intros Hsome. apply existsb_exists in Hsome. rewrite Hsome.
    reflexivity.
Qed.

(** C9, as the code has it: a cast emits [cast(e as T)], or
    [safe_cast(e as T)] when [safe] is set, where [T] is [float64] for the
    cast type number and the cast type itself otherwise; a date cast to a
    timestamp emits [TIMESTAMP(e)], a timestamp cast to a date emits
    [DATE(e)] with the timeframe [day].  The data type of the result is
    the cast type and the aggregate flag is the operand's. *)
Theorem ExprCast_translation_spec
    (e : ExpressionDef) (castType : CastType) (safe : bool)
    (fs : FieldSpace) (l : list string) (v : ExprValue) :
  translation ext e fs = (l, Ok v) ->
  translation ext (ExprCast e castType safe) fs
  = (l, Ok (castSpec castType safe v))
  /\ dataType (castSpec castType safe v) = castTypeOf castType
  /\ aggregate (castSpec castType safe v) = aggregate v.
Proof.
  intros He. unfold translation in *.
  cbn [methods plain m_translation]. unfold ExprCast_translation, castSpec.
  rewrite He, bind_ok.
  destruct castType, (dataType v) eqn:Hd;
    cbn; rewrite ?app_nil_r; repeat split; reflexivity.
Qed.

End FilterAndCast.

(** A filter on a year, over a number. *)
Lemma ExprFilter_identity_or_aggregate_error_witness :
  translation Sample.ext
    (ExprFilter (ExprField "x")
       (Sample.filterOf [mkFilterCond [FText "year = 2020"] false]))
    Sample.fs
  = ([], Ok (mkExprValue TNumber false [FField "x"] None))
  /\ translation Sample.ext
       (ExprFilter (ExprField "x")
          (Sample.filterOf [mkFilterCond [FField "sold"; FText " > 1"] true]))
       Sample.fs
     = (["Cannot filter a field with an aggregate computation"],
        Ok (errorFor "no filter on aggregate")).
Proof.
  split.
  - apply (ExprFilter_identity_or_aggregate_error Sample.ext
             (ExprField "x")
             (Sample.filterOf [mkFilterCond [FText "year = 2020"] false])
             Sample.fs [] [] [mkFilterCond [FText "year = 2020"] false]
             (mkExprValue TNumber false [FField "x"] None)
             eq_refl eq_refl).
    + intros c [Hc | []]. rewrite <- Hc. reflexivity.
    + reflexivity.
  - apply (ExprFilter_identity_or_aggregate_error Sample.ext
             (ExprField "x")
             (Sample.filterOf
                [mkFilterCond [FField "sold"; FText " > 1"] true])
             Sample.fs [] []
             [mkFilterCond [FField "sold"; FText " > 1"] true]
             (mkExprValue TNumber false [FField "x"] None)
             eq_refl eq_refl).
    exists (mkFilterCond [FField "sold"; FText " > 1"] true).
    split; [left; reflexivity | reflexivity].
Defined.

(** A string cast to a number. *)
Lemma ExprCast_translation_spec_witness :
  translation Sample.ext (ExprString "'7'") Sample.fs
  = ([], Ok (mkExprValue TString false [FText "'7'"] None))
  /\ translation Sample.ext (ExprCast (ExprString "'7'") CastNumber false)
       Sample.fs
     = ([], Ok (mkExprValue TNumber false [FText "cast('7' as float64)"] None)).
Proof.
  split; [reflexivity|].
  apply (ExprCast_translation_spec Sample.ext (ExprString "'7'") CastNumber
           false Sample.fs []
           (mkExprValue TString false [FText "'7'"] None) eq_refl).
Defined.

(** C9 as the spec states it fails: the text of a cast to number does not
    name the cast type. *)
Lemma ExprCast_number_is_float64 :
  ~ (forall (e : ExpressionDef) (castType : CastType) (safe : bool)
            (fs : FieldSpace) (l : list string) (v : ExprValue),
       translation Sample.ext e fs = (l, Ok v) ->
       dataType v <> TDate -> dataType v <> TTimestamp ->
       exists v',
         outcome (translation Sample.ext (ExprCast e castType safe) fs) = Ok v'
         /\ value v'
            = compressExpr
                ([FText ((if safe then "safe_cast" else "cast") +:+ "(")]
                   ++ value v
                   ++ [FText (" as " +:+ typeName (castTypeOf castType)
                              +:+ ")")])).
Proof.
  intros H.
  destruct (H (ExprString "'7'") CastNumber false Sample.fs []
              (mkExprValue TString false [FText "'7'"] None) eq_refl)
    as (v' & Hout & Hval); [discriminate | discriminate |].
  vm_compute in Hout. inversion Hout; subst v'.
  vm_compute in Hval. discriminate Hval.
Qed.

(** ** [Pick] *)

Section PickValue.

Context (ext : External).

Lemma outcome_bind_ok {A B} (l : list string) (a : A) (k : A -> M B) :
  outcome (bind (l, Ok a) k) = outcome (k a).
Proof. rewrite bind_ok. reflexivity. Qed.

Lemma outcome_bind {A B} (m : M A) (k : A -> M B) (a : A) :
  outcome m = Ok a -> outcome (bind m k) = outcome (k a).
Proof.
  destruct m as [l r]. cbn [outcome snd]. intros ->. apply outcome_bind_ok.
Qed.

Lemma outcome_map {A B} (m : M A) (f : A -> B) :
  outcome (v <- m ;; ret (f v)) = mapResult f (outcome m).
Proof. destruct m as [l [a|x]]; reflexivity. Qed.

Lemma returns_ret {A} (a : A) : returns (ret a).
Proof. exists a. reflexivity. Qed.

Lemma returns_bind {A B} (m : M A) (k : A -> M B) :
  returns m ->
  (forall a, outcome m = Ok a -> returns (k a)) ->
  returns (bind m k).
Proof.
  intros [a Ha] Hk. destruct (Hk a Ha) as [b Hb].
  exists b. rewrite (outcome_bind _ _ _ Ha). exact Hb.
Qed.

Lemma returns_log_then {A} (msg : string) (m : M A) :
  returns m -> returns (log msg ;;; m).
Proof. intros H. apply returns_bind; [exists tt; reflexivity | auto]. Qed.

(** The method table of a [Pick] node. *)
Lemma methods_Pick (choices : list PickWhen)
    (elsePick : option ExpressionDef) :
  methods ext (Pick choices elsePick)
  = Pick_methods (List.map (pickWhenM ext) choices)
      (option_map (methods ext) elsePick).
Proof. reflexivity. Qed.

(** The search of [Pick.requestTranslation] finds a choice exactly when
    one is partial. *)
Lemma Pick_findPartial_spec (choices : list PickWhen) (fs : FieldSpace) :
  Forall (fun c => returns (requestTranslation ext (whenOf c) fs)) choices ->
  exists b,
    outcome (Pick_findPartial (List.map (pickWhenM ext) choices) fs) = Ok b
    /\ (b = true <-> Exists (partialChoice ext fs) choices).
Proof.
  induction 1 as [|c choices [r Hr] _ (b & Hb & IH)].
  - exists false. split; [reflexivity|].
    split; [discriminate | intros H; inversion H].
  - destruct c as [[p|] w]; cbn [List.map pickWhenM option_map Pick_findPartial].
    + cbn [whenOf] in Hr. unfold requestTranslation in Hr.
      rewrite (outcome_bind _ _ _ Hr).
      destruct r as [v|].
      * exists b. split; [exact Hb|]. rewrite IH. split.
        -- intros HE. right. exact HE.
        -- intros HE. inversion HE as [? ? Hc|]; [|assumption].
           destruct Hc as [Hc | Hc]; [discriminate Hc|].
           cbn [whenOf] in Hc. unfold requestTranslation in Hc.
           rewrite Hr in Hc. discriminate Hc.
      * exists true. split; [reflexivity|].
        split; [|reflexivity]. intros _. left. right. exact Hr.
    + exists true. split; [reflexivity|].
      split; [|reflexivity]. intros _. left. left. reflexivity.
Qed.

(** C8, as the code has it: [Pick.requestTranslation] denies when the else
    clause is missing; with an else clause, and the [when] clauses
    answering the request, it denies exactly when some choice has no value
    to pick or a [when] that denies; in every other case it returns what
    [Pick.translation] returns. *)
Theorem Pick_requestTranslation_denial
    (choices : list PickWhen) (fs : FieldSpace) :
  requestTranslation ext (Pick choices None) fs = ([], Ok None)
  /\ forall elsePick,
       Forall (fun c => returns (requestTranslation ext (whenOf c) fs))
              choices ->
       (outcome (requestTranslation ext (Pick choices (Some elsePick)) fs)
        = Ok None
        <-> Exists (partialChoice ext fs) choices)
       /\ (~ Exists (partialChoice ext fs) choices ->
           outcome (requestTranslation ext (Pick choices (Some elsePick)) fs)
           = mapResult Some
               (outcome (translation ext (Pick choices (Some elsePick)) fs))).
Proof.
  split; [reflexivity|].
  intros elsePick Hret.
  destruct (Pick_findPartial_spec choices fs Hret) as (b & Hb & Hiff).
  assert (Hrun :
    outcome (requestTranslation ext (Pick choices (Some elsePick)) fs)
    = if b then Ok None
      else mapResult Some
             (outcome (translation ext (Pick choices (Some elsePick)) fs))).
  { unfold requestTranslation, translation. rewrite methods_Pick.
    cbn [Pick_methods m_requestTranslation m_translation option_map].
    unfold Pick_requestTranslation at 1.
    rewrite (outcome_bind _ _ _ Hb).
    destruct b; [reflexivity | apply outcome_map]. }
  rewrite Hrun. split.
  - rewrite <- Hiff. destruct b; split; try reflexivity; try discriminate.
    destruct (outcome (translation ext (Pick choices (Some elsePick)) fs));
      discriminate.
  - intros Hno. destruct b; [|reflexivity].
    exfalso. apply Hno, Hiff. reflexivity.
Qed.

Lemma returns_after {A B} (m : M A) (k : A -> M B) (a : A) :
  outcome m = Ok a -> returns (k a) -> returns (bind m k).
Proof.
  intros Ha [b Hb]. exists b. rewrite (outcome_bind _ _ _ Ha). exact Hb.
Qed.

(** The first loop of [Pick.translation] returns when the children do, and
    on a normal exit it has pushed one entry for every choice. *)
Lemma Pick_choiceValues_returns (choices : list PickWhen) (fs : FieldSpace) :
  Forall (fun c =>
            returns (requestTranslation ext (whenOf c) fs)
            /\ returns (translation ext (whenOf c) fs)
            /\ forall p, pickOf c = Some p -> returns (translation ext p fs))
         choices ->
  forall choiceValues,
  exists r,
    outcome (Pick_choiceValues (List.map (pickWhenM ext) choices)
               choiceValues fs) = Ok r
    /\ forall filled, r = inr filled ->
         List.length filled
         = (List.length choiceValues + List.length choices)%nat.
Proof.
  induction 1 as [|c choices (Hreq & Hwhen & Hpick) _ IH]; intros acc.
  - exists (inr acc). split; [reflexivity|].
    intros filled [= <-]. cbn. lia.
  - destruct c as [[p|] w];
      cbn [List.map pickWhenM option_map Pick_choiceValues whenOf pickOf] in *.
    + destruct Hreq as [rq Hrq]. unfold requestTranslation in Hrq.
      rewrite (outcome_bind _ _ _ Hrq).
      destruct rq as [rv|].
      * destruct (Hpick p eq_refl) as [pv Hpv].
        destruct Hwhen as [wv Hwv]. unfold translation in Hpv, Hwv.
        rewrite (outcome_bind _ _ _ Hpv), (outcome_bind _ _ _ Hwv).
        destruct (IH (acc ++ [mkChoice pv wv])) as (r & Hr & Hlen).
        exists r. split; [exact Hr|].
        intros filled Hf. rewrite (Hlen filled Hf), length_app. cbn. lia.
      * eexists. split; [reflexivity | discriminate].
    + eexists. split; [reflexivity | discriminate].
Qed.

(** The second loop of [Pick.translation] calls no child: it returns. *)
Lemma Pick_cases_returns (returnType : ExprValue)
    (choiceValues : list Choice) :
  forall anyAggregate caseValue,
    returns (Pick_cases returnType choiceValues anyAggregate caseValue).
Proof.
  induction choiceValues as [|aChoice rest IH]; intros anyAggregate caseValue.
  - apply returns_ret.
  - cbn [Pick_cases].
    destruct (negb (FT.typeEq _ FT.boolT false));
      [apply returns_log_then, returns_ret|].
    destruct (negb (typeEqV returnType _ true));
      [apply returns_log_then, returns_ret|].
    apply IH.
Qed.

(** C10: [Pick.translation] on a pick with an else clause and no choice
    reads [choiceValues[0].pick] from an empty list and throws a
    [TypeError]; with at least one choice, and the children translating
    without an exception, it returns a value. *)
Theorem Pick_translation_needs_a_choice :
  (forall elsePick fs,
      translation ext (Pick [] (Some elsePick)) fs
      = ([], Throw (TypeError
               "Cannot read properties of undefined (reading 'pick')")))
  /\ (forall choices elsePick fs,
        choices <> [] ->
        childrenReturn ext fs choices elsePick ->
        returns (translation ext (Pick choices (Some elsePick)) fs)).
Proof.
  split; [reflexivity|].
  intros choices elsePick fs Hne [Hchildren Helse].
  unfold translation at 1. rewrite methods_Pick.
  cbn [Pick_methods m_translation option_map]. unfold Pick_translation.
  destruct (Pick_choiceValues_returns choices fs Hchildren [])
    as (r & Hr & Hlen).
  apply (returns_after _ _ _ Hr).
  destruct r as [early | filled]; [apply returns_ret|].
  specialize (Hlen filled eq_refl).
  destruct filled as [|first filled].
  { destruct choices; [congruence | discriminate Hlen]. }
  apply returns_bind; [apply Pick_cases_returns|].
  intros [early | [anyAggregate caseValue]] _; [apply returns_ret|].
  apply returns_bind; [exact Helse|].
  intros elseValue _.
  destruct (negb (typeEqV (choice_pick first) elseValue true));
    [apply returns_log_then, returns_ret | apply returns_ret].
Qed.

End PickValue.

(** A pick whose only choice has a value and a boolean [when]. *)
Lemma Pick_requestTranslation_denial_witness :
  Forall (fun c => returns (requestTranslation Sample.ext (whenOf c) Sample.fs))
         [mkPickWhen (Some (ExprNumber "1")) (Boolean true)]
  /\ outcome (requestTranslation Sample.ext
                (Pick [mkPickWhen (Some (ExprNumber "1")) (Boolean true)]
                      (Some (ExprNumber "0")))
                Sample.fs)
     = mapResult Some
         (outcome (translation Sample.ext
                     (Pick [mkPickWhen (Some (ExprNumber "1")) (Boolean true)]
                           (Some (ExprNumber "0")))
                     Sample.fs)).
Proof.
  assert (Hret : Forall (fun c => returns (requestTranslation Sample.ext
                                            (whenOf c) Sample.fs))
                        [mkPickWhen (Some (ExprNumber "1")) (Boolean true)]).
  { repeat constructor. eexists. reflexivity. }
  split; [exact Hret|].
  apply (proj2 (Pick_requestTranslation_denial Sample.ext
                  [mkPickWhen (Some (ExprNumber "1")) (Boolean true)]
                  Sample.fs) (ExprNumber "0") Hret).
  intros HE. inversion HE as [? ? [Hc | Hc]|? ? HE']; subst.
  - discriminate Hc.
  - vm_compute in Hc. discriminate Hc.
  - inversion HE'.
Defined.

(** C8 as the spec states it fails: a choice without a value makes the pick
    deny its translation, with the else clause there and no [when] partial. *)
Lemma Pick_denies_on_missing_value :
  ~ (forall (choices : list PickWhen) (elsePick : option ExpressionDef)
            (fs : FieldSpace),
       outcome (requestTranslation Sample.ext (Pick choices elsePick) fs)
       = Ok None
       <-> (elsePick = None
            \/ Exists (fun c =>
                         outcome (requestTranslation Sample.ext (whenOf c) fs)
                         = Ok None)
                      choices)).
Proof.
  intros H.
  destruct (proj1 (H [mkPickWhen None (Boolean true)] (Some (ExprNumber "0"))
                     Sample.fs) eq_refl) as [Hels | HE].
  - discriminate Hels.
  - inversion HE as [? ? Hc|? ? HE']; subst.
    + vm_compute in Hc. discriminate Hc.
    + inversion HE'.
Qed.

(** The pick of scenario S6 has a choice, and its children translate. *)
Lemma Pick_translation_needs_a_choice_witness :
  [mkPickWhen (Some (ExprNumber "1")) (Boolean true)] <> []
  /\ childrenReturn Sample.ext Sample.fs
       [mkPickWhen (Some (ExprNumber "1")) (Boolean true)] (ExprNumber "0")
  /\ returns (translation Sample.ext
                (Pick [mkPickWhen (Some (ExprNumber "1")) (Boolean true)]
                      (Some (ExprNumber "0")))
                Sample.fs).
Proof.
  assert (Hc : childrenReturn Sample.ext Sample.fs
                 [mkPickWhen (Some (ExprNumber "1")) (Boolean true)]
                 (ExprNumber "0")).
  { split; [|eexists; reflexivity].
    repeat constructor; try (eexists; reflexivity).
    intros p [= <-]. eexists. reflexivity. }
  split; [discriminate|]. split; [exact Hc|].
  apply (proj2 (Pick_translation_needs_a_choice Sample.ext)
           [mkPickWhen (Some (ExprNumber "1")) (Boolean true)]
           (ExprNumber "0") Sample.fs); [discriminate | exact Hc].
Defined.

(** ** Granted and denied translation requests *)

Section Requests.

Context (ext : External).

Lemma outcome_bind_inv {A B} (m : M A) (k : A -> M B) (b : B) :
  outcome (bind m k) = Ok b ->
  exists a, outcome m = Ok a /\ outcome (k a) = Ok b.
Proof.
  destruct m as [l [a|x]]; [|discriminate].
  rewrite bind_ok. cbn [outcome snd]. intros H. exists a. split; [reflexivity | exact H].
Qed.

Lemma outcome_request_default (tr : FieldSpace -> M ExprValue)
    (fs : FieldSpace) :
  outcome (ExpressionDef_requestTranslation tr fs)
  = mapResult Some (outcome (tr fs)).
Proof.
  unfold ExpressionDef_requestTranslation.
  destruct (tr fs) as [l [a|x]]; reflexivity.
Qed.

Lemma default_request_granted (tr : FieldSpace -> M ExprValue)
    (fs : FieldSpace) (v : ExprValue) :
  outcome (ExpressionDef_requestTranslation tr fs) = Ok (Some v) ->
  outcome (tr fs) = Ok v.
Proof.
  rewrite outcome_request_default.
  destruct (outcome (tr fs)) as [a|x]; cbn [mapResult];
    [intros [= ->]; reflexivity | discriminate].
Qed.

Lemma default_request_not_denied (tr : FieldSpace -> M ExprValue)
    (fs : FieldSpace) (P : Prop) :
  outcome (ExpressionDef_requestTranslation tr fs) = Ok None -> P.
Proof.
  rewrite outcome_request_default.
  destruct (outcome (tr fs)) as [a|x]; discriminate.
Qed.

(** The request of a [Pick] is granted with the value of its
    translation. *)
Lemma Pick_requestTranslation_granted (choices : list PickWhenM)
    (elsePick : option Methods) (fs : FieldSpace) (v : ExprValue) :
  outcome (Pick_requestTranslation choices elsePick fs) = Ok (Some v) ->
  outcome (Pick_translation choices elsePick fs) = Ok v.
Proof.
  unfold Pick_requestTranslation.
  destruct elsePick as [elsePick|]; [|discriminate].
  intros H. apply outcome_bind_inv in H. destruct H as ([|] & _ & H).
  - discriminate H.
  - apply outcome_bind_inv in H. destruct H as (v' & Hv' & H).
    cbn in H. injection H as ->. exact Hv'.
Qed.

(** A granted request gives the translation of the node, taken without the
    parentheses around it: [ExprParens.requestTranslation] forwards the
    request and adds no parentheses to the answer. *)
Theorem requestTranslation_granted_is_translation
    (e : ExpressionDef) (fs : FieldSpace) (v : ExprValue) :
  outcome (requestTranslation ext e fs) = Ok (Some v) ->
  outcome (translation ext (stripParens e) fs) = Ok v.
Proof.
  unfold requestTranslation, translation.
  induction e; cbn [stripParens]; try exact IHe;
    cbn [methods plain ExprParens_methods ExprAlternationTree_methods
         Range_methods Pick_methods m_requestTranslation m_translation];
    try apply default_request_granted;
    try discriminate.
  apply Pick_requestTranslation_granted.
Qed.

(** Only a range, an alternation tree or a pick, with any parentheses around
    it, denies a request for its translation. *)
Theorem requestTranslation_denied_only_by_partial
    (e : ExpressionDef) (fs : FieldSpace) :
  outcome (requestTranslation ext e fs) = Ok None ->
  isPartialNode (stripParens e).
Proof.
  unfold requestTranslation.
  induction e; cbn [stripParens isPartialNode]; try exact IHe;
    try exact (fun _ => I);
    cbn [methods plain m_requestTranslation];
    apply default_request_not_denied.
Qed.

End Requests.

Lemma requestTranslation_granted_is_translation_witness :
  outcome (requestTranslation Sample.ext
             (ExprParens (ExprParens (ExprNumber "1"))) Sample.fs)
  = Ok (Some (mkExprValue TNumber false [FText "1"] None))
  /\ outcome (translation Sample.ext (ExprNumber "1") Sample.fs)
     = Ok (mkExprValue TNumber false [FText "1"] None).
Proof.
  split; [reflexivity|].
  apply (requestTranslation_granted_is_translation Sample.ext
           (ExprParens (ExprParens (ExprNumber "1"))) Sample.fs).
  reflexivity.
Defined.

Lemma requestTranslation_denied_only_by_partial_witness :
  outcome (requestTranslation Sample.ext
             (ExprParens (Range (ExprNumber "1") (ExprNumber "2"))) Sample.fs)
  = Ok None
  /\ isPartialNode
       (stripParens (ExprParens (Range (ExprNumber "1") (ExprNumber "2")))).
Proof.
  split; [reflexivity|].
  apply (requestTranslation_denied_only_by_partial Sample.ext
           (ExprParens (Range (ExprNumber "1") (ExprNumber "2"))) Sample.fs).
  reflexivity.
Defined.

(** ** Timestamps, field definitions and cast types *)

Section Fields.

Context (ext : External).

(** [thisValueToTimestamp], given a node and the value of its translation,
    answers a node whose translation is a timestamp with the same aggregate
    flag; a value that is converted loses its timeframe and the new node
    logs nothing.  Converting the answer once more changes nothing. *)
Theorem thisValueToTimestamp_is_timestamp
    (e : ExpressionDef) (fs : FieldSpace) (l : list string) (v : ExprValue) :
  translation ext e fs = (l, Ok v) ->
  exists l' v',
    translation ext (thisValueToTimestamp e v) fs = (l', Ok v')
    /\ dataType v' = TTimestamp
    /\ aggregate v' = aggregate v
    /\ (dataType v <> TTimestamp -> l' = [] /\ timeframe v' = None)
    /\ thisValueToTimestamp (thisValueToTimestamp e v) v'
       = thisValueToTimestamp e v.
Proof.
  intros He. unfold thisValueToTimestamp.
  destruct (bool_decide (dataType v = TTimestamp)) eqn:Hd.
  - apply bool_decide_eq_true in Hd. exists l, v.
    split; [exact He|]. split; [exact Hd|]. split; [reflexivity|].
    split; [intros Hn; contradiction|].
    rewrite bool_decide_eq_true_2 by exact Hd. reflexivity.
  - exists [], (mkExprValue TTimestamp (aggregate v)
                  (compressExpr
                     ([FText "TIMESTAMP("] ++ value v ++ [FText ")"]))
                  None).
    split; [reflexivity|]. split; [reflexivity|]. split; [reflexivity|].
    split; [intros _; split; reflexivity | reflexivity].
Qed.

(** The field that [fieldDef] answers always has an atomic type, and it has
    a timeframe only when it is a timestamp: the timeframe of a granular
    date is dropped. *)
Theorem fieldDef_type_is_atomic
    (expr : ExpressionDef) (exprSrc : option string) (fs : FieldSpace)
    (exprName : string) (l : list string) (def : FieldTypeDef) :
  ExpressionFieldDef_fieldDef ext expr exprSrc fs exprName = (l, Ok def) ->
  isAtomicFieldType (fd_type def) = true
  /\ (fd_timeframe def <> None -> fd_type def = TTimestamp).
Proof.
  unfold ExpressionFieldDef_fieldDef.
  destruct (translation ext expr fs) as [le [v|x]]; [|discriminate].
  rewrite bind_ok.
  destruct (isAtomicFieldType (dataType v)) eqn:Hat; cbn; intros [= _ <-];
    cbn [fd_type fd_timeframe].
  - split; [exact Hat|].
    destruct (bool_decide (dataType v = TTimestamp)) eqn:Hd.
    + intros _. apply bool_decide_eq_true in Hd. exact Hd.
    + rewrite andb_false_r. intros H. contradiction.
  - split; [reflexivity | intros H; contradiction].
Qed.

(** When the translation of the expression has a type that is not atomic
    (null, a regular expression, an error), [fieldDef] logs one diagnostic
    more, "Cannot define ...", and answers a string field named
    [error_defining_] and the name. *)
Theorem fieldDef_of_non_atomic
    (expr : ExpressionDef) (exprSrc : option string) (fs : FieldSpace)
    (exprName : string) (l : list string) (v : ExprValue) :
  translation ext expr fs = (l, Ok v) ->
  isAtomicFieldType (dataType v) = false ->
  ExpressionFieldDef_fieldDef ext expr exprSrc fs exprName
  = (l ++ ["Cannot define " +:+ exprName +:+ ", unexpected type "
           +:+ typeName (dataType v)],
     Ok (mkFieldTypeDef ("error_defining_" +:+ exprName) TString
           None None None None)).
Proof.
  intros He Hat. unfold ExpressionFieldDef_fieldDef.
  rewrite He, bind_ok, Hat. reflexivity.
Qed.

End Fields.

(** [isCastType] accepts exactly the names of the five cast types. *)
Theorem isCastType_iff (t : string) :
  isCastType t = true <-> exists c : CastType, t = castTypeName c.
Proof.
  split.
  - unfold isCastType. cbn [existsb]. rewrite !orb_true_iff.
    intros [H|[H|[H|[H|[H|H]]]]]; try discriminate H;
      apply String.eqb_eq in H; subst t.
    + exists CastString. reflexivity.
    + exists CastNumber. reflexivity.
    + exists CastBoolean. reflexivity.
    + exists CastDate. reflexivity.
    + exists CastTimestamp. reflexivity.
  - intros [c ->]. destruct c; reflexivity.
Qed.

(** ** Operators, filters and aggregates *)

Section Operators.

Context (ext : External).

(** A filter on an aggregate expression, with no aggregate condition: when
    the data type is a string, number, date or timestamp the value is
    wrapped in one [filterExpression] fragment and keeps its type, flag and
    timeframe; for any other data type the failure is reported twice, by
    [typeCheck] and by [ExprFilter] itself. *)
Theorem ExprFilter_on_aggregate
    (e : ExpressionDef) (filter : Filter) (fs : FieldSpace)
    (lf le : list string) (testList : list FilterCond) (v : ExprValue) :
  getFilterList filter fs = (lf, Ok testList) ->
  translation ext e fs = (le, Ok v) ->
  (forall c, In c testList -> cond_is_aggregate c = false) ->
  aggregate v = true ->
  translation ext (ExprFilter e filter) fs
  = if bool_decide (dataType v ∈ [TString; TNumber; TDate; TTimestamp]) then
      (lf ++ le,
       Ok (mkExprValue (dataType v) true
             [FFilterExpression (value v) testList] (timeframe v)))
    else
      (lf ++ le ++ ["'filtered expression' Can't use type "
                    +:+ typeName (dataType v);
                    "Cannot filter '" +:+ typeName (dataType v) +:+ "' data"],
       Ok (errorFor "cannot filter type")).
Proof.
  intros Hf He Hnone Hagg. unfold translation in *.
  cbn [methods plain m_translation]. unfold ExprFilter_translation.
  rewrite Hf, bind_ok, He, bind_ok. cbn [fst snd].
  rewrite (existsb_none _ _ Hnone), Hagg. cbn [negb].
  unfold typeCheck, setValue.
  change (fragTypeOf (notAggregate v)) with (mkFragType (dataType v) false).
  rewrite Hagg.
  destruct (dataType v); cbn; rewrite ?app_nil_r; reflexivity.
Qed.

(** A logical operator over operands that translate logs their diagnostics
    in order and at most one of its own: none when the result is boolean,
    with the OR of the aggregate flags; one when the result is an error.
    The right operand is not checked once the left one has failed. *)
Theorem ExprLogicalOp_own_diagnostic
    (lhs rhs : ExpressionDef) (op : LogicalOp) (fs : FieldSpace)
    (ll lr : list string) (lv rv : ExprValue) :
  translation ext lhs fs = (ll, Ok lv) ->
  translation ext rhs fs = (lr, Ok rv) ->
  exists own v,
    translation ext (ExprLogicalOp lhs op rhs) fs = (ll ++ lr ++ own, Ok v)
    /\ ((own = []
         /\ v = mkExprValue TBoolean (aggregate lv || aggregate rv)
                  (compose (value lv) (logicalText op) (value rv)) None)
        \/ (List.length own = 1 /\ dataType v = TError)).
Proof.
  intros Hl Hr. unfold translation in *.
  cbn [methods plain m_translation].
  unfold ExprLogicalOp_translation, BinaryBoolean_translation.
  rewrite Hl, bind_ok, Hr, bind_ok. cbn [fst snd]. unfold typeCheck.
  destruct (negb (FT.in_ (fragTypeOf lv) _)).
  - eexists [_], _. split; [reflexivity|]. right. split; reflexivity.
  - destruct (negb (FT.in_ (fragTypeOf rv) _)).
    + eexists [_], _. split; [reflexivity|]. right. split; reflexivity.
    + eexists [], _. split; [reflexivity|]. left. split; reflexivity.
Qed.

(** A negation that passes the type check keeps the type, the flag and the
    timeframe of its operand, and a negation of a negation is always
    parenthesised: [-(-x)], never [--x]. *)
Theorem ExprMinus_nested_is_parenthesised
    (e : ExpressionDef) (fs : FieldSpace) (l : list string) (v : ExprValue) :
  translation ext e fs = (l, Ok v) ->
  FT.in_ (fragTypeOf v) [FT.numberT] = true ->
  value v <> [] ->
  exists inner,
    translation ext (ExprMinus e) fs = (l, Ok (setValue v inner))
    /\ translation ext (ExprMinus (ExprMinus e)) fs
       = (l, Ok (setValue v ([FText "-("] ++ inner ++ [FText ")"]))).
Proof.
  intros He Hin Hne. unfold translation in *.
  assert (H1 : exists inner,
             ExprMinus_translation (methods ext e) fs
             = (l, Ok (setValue v inner))
             /\ Nat.ltb 1 (List.length inner) = true).
  { unfold ExprMinus_translation. rewrite He, bind_ok.
    rewrite (typeCheck_legal _ _ _ Hin). cbn [fst snd].
    destruct (value v) as [|f [|g rest]] eqn:Hv; [contradiction| |].
    - eexists. cbn. rewrite app_nil_r. split; reflexivity.
    - eexists. cbn. rewrite app_nil_r. split; reflexivity. }
  destruct H1 as (inner & H1 & Hlen).
  exists inner. cbn [methods plain m_translation]. split; [exact H1|].
  unfold ExprMinus_translation at 1. cbn [plain m_translation].
  rewrite H1, bind_ok.
  rewrite (typeCheck_legal _ _ (setValue v inner) Hin). cbn [fst snd].
  cbn [setValue value]. rewrite Hlen. cbn. rewrite app_nil_r. reflexivity.
Qed.

Lemma truthy_length (s : string) :
  truthySource (if Nat.ltb 0 (String.length s) then Some s else None)
  = (if Nat.ltb 0 (String.length s) then Some s else None).
Proof. destruct s; reflexivity. Qed.

Lemma ExprAggregateFunction_source
    (func : string) (legal : list FragType)
    (returns : ExprValue -> FieldValueType)
    (expr : option Methods) (src : string) (entry : FieldEntry)
    (fs : FieldSpace) (le : list string) :
  match expr with
  | Some e => exists v, m_translation e fs = (le, Ok v)
  | None => le = []
  end ->
  truthy src = true ->
  field fs src = Some entry ->
  isAtomicFieldType (entry_type entry) = true ->
  FT.in_ (mkFragType (entry_type entry) false) legal = true ->
  ExprAggregateFunction_translation ext func legal returns expr (Some src) fs
  = (le,
     Ok (mkExprValue
           (returns (mkExprValue (entry_type entry) (entry_aggregate entry)
                       [FField src] None))
           true
           [FAggregate func [FField src]
              (if Nat.ltb 0 (String.length (FieldPath_body ext src))
               then Some (FieldPath_body ext src) else None)]
           None)).
Proof.
  intros Hexpr Htruthy Hfield Hatomic Hlegal.
  unfold ExprAggregateFunction_translation.
  cbn [truthySource]. rewrite Htruthy, Hfield, Hatomic.
  assert (Hrun : forall (k : option ExprValue -> M ExprValue),
             exists ev,
               bind match expr with
                    | Some e => v <- m_translation e fs ;; ret (Some v)
                    | None => ret None
                    end k
               = (le ++ fst (k ev), snd (k ev))).
  { intros k. destruct expr as [e|].
    - destruct Hexpr as (v & Hv). exists (Some v). rewrite Hv, bind_ok.
      cbn [ret fst snd]. rewrite app_nil_r. apply bind_ok.
    - subst le. exists None. rewrite bind_ret.
      destruct (k None); reflexivity. }
  match goal with |- bind _ ?k = _ => destruct (Hrun k) as [ev ->] end.
  rewrite truthy_length. unfold typeCheck.
  change (fragTypeOf (notAggregate _))
    with (mkFragType (entry_type entry) false).
  rewrite Hlegal. cbn. rewrite app_nil_r. reflexivity.
Qed.

(** [sum] and [avg] with a source that names a number field aggregate that
    field, whatever expression they were given too: the value of the
    expression is dropped and only its diagnostics stay.  The structure
    path is the body of the source, when it is not empty. *)
Theorem aggregate_source_overrides_expression
    (expr : option ExpressionDef) (src : string) (entry : FieldEntry)
    (fs : FieldSpace) (le : list string) :
  match expr with
  | Some e => exists v, translation ext e fs = (le, Ok v)
  | None => le = []
  end ->
  truthy src = true ->
  field fs src = Some entry ->
  entry_type entry = TNumber ->
  let structPath :=
    if Nat.ltb 0 (String.length (FieldPath_body ext src))
    then Some (FieldPath_body ext src) else None in
  translation ext (ExprSum expr (Some src)) fs
  = (le, Ok (mkExprValue TNumber true
               [FAggregate "sum" [FField src] structPath] None))
  /\ translation ext (ExprAvg expr (Some src)) fs
     = (le, Ok (mkExprValue TNumber true
                  [FAggregate "avg" [FField src] structPath] None)).
Proof.
  intros Hexpr Htruthy Hfield Htype structPath. unfold translation in *.
  cbn [methods plain m_translation].
  assert (Hexpr' : match option_map (methods ext) expr with
                   | Some e => exists v, m_translation e fs = (le, Ok v)
                   | None => le = []
                   end) by (destruct expr; exact Hexpr).
  split.
  - unfold ExprSum_translation.
    rewrite (ExprAggregateFunction_source _ _ _ _ _ _ _ _ Hexpr' Htruthy Hfield);
      rewrite ?Htype; reflexivity.
  - unfold ExprAvg_translation.
    rewrite (ExprAggregateFunction_source _ _ _ _ _ _ _ _ Hexpr' Htruthy Hfield);
      rewrite ?Htype; reflexivity.
Qed.

(** [sum] and [avg] with no expression and no source that names an atomic
    field (no source, an empty one, an unknown name or a field that is not
    atomic) log "Missing expression for aggregate function" and are
    error-typed. *)
Theorem aggregate_without_expression
    (source : option string) (fs : FieldSpace) :
  (forall src entry,
      truthySource source = Some src -> field fs src = Some entry ->
      isAtomicFieldType (entry_type entry) = false) ->
  translation ext (ExprSum None source) fs
  = (["Missing expression for aggregate function"],
     Ok (errorFor "agggregate without expression"))
  /\ translation ext (ExprAvg None source) fs
     = (["Missing expression for aggregate function"],
        Ok (errorFor "agggregate without expression")).
Proof.
  intros Hsrc. unfold translation. cbn [methods plain m_translation option_map].
  unfold ExprSum_translation, ExprAvg_translation,
    ExprAggregateFunction_translation.
  rewrite !bind_ret.
  destruct (truthySource source) as [src|] eqn:Ht; [|split; reflexivity].
  destruct (field fs src) as [entry|] eqn:Hf; [|split; reflexivity].
  rewrite (Hsrc src entry eq_refl Hf). split; reflexivity.
Qed.

End Operators.

(** ** [ExprCase] *)

Section CaseValue.

Context (ext : External).

Lemma methods_ExprCase (when : list WhenClause)
    (elseClause : option ExpressionDef) (fs : FieldSpace) :
  translation ext (ExprCase when elseClause) fs
  = ExprCase_translation (List.map (whenClauseM ext) when)
      (option_map (methods ext) elseClause) fs.
Proof. reflexivity. Qed.

Lemma outcome_log_ret {A} (msg : string) (a b : A) :
  outcome (log msg ;;; ret a) = Ok b -> a = b.
Proof. cbn. intros [= ->]. reflexivity. Qed.

Lemma ExprCase_whens_retType (when : list (Methods * Methods))
    (fs : FieldSpace) :
  forall st r,
    outcome (ExprCase_whens when st fs) = Ok r ->
    retTypeNotNull st ->
    match r with
    | inl early => dataType early = TError
    | inr st' => retTypeNotNull st'
    end.
Proof.
  induction when as [|[whenThis thenThis] rest IH]; intros st r Hr Hst.
  - cbn in Hr. injection Hr as <-. exact Hst.
  - cbn [ExprCase_whens] in Hr.
    apply outcome_bind_inv in Hr. destruct Hr as (whenExpr & _ & Hr).
    apply outcome_bind_inv in Hr. destruct Hr as (thenExpr & _ & Hr).
    destruct (bool_decide (dataType thenExpr = TNull)) eqn:Hnull;
      cbn [negb] in Hr.
    + apply (IH _ _ Hr). intros rt Hrt. exact (Hst rt Hrt).
    + apply bool_decide_eq_false in Hnull.
      assert (Hnew : forall a c,
                 retTypeNotNull (mkCaseState (Some thenExpr) a c)).
      { intros a c rt [= <-]. exact Hnull. }
      destruct (cs_retType st) as [retType|].
      * destruct (negb (typeEqV retType thenExpr false)).
        -- apply outcome_log_ret in Hr. subst r. reflexivity.
        -- apply (IH _ _ Hr), Hnew.
      * apply (IH _ _ Hr), Hnew.
Qed.

Lemma ExprCase_else_retType (elseClause : option Methods)
    (fs : FieldSpace) (st : CaseState) (r : ExprValue + CaseState) :
  outcome (ExprCase_else elseClause st fs) = Ok r ->
  retTypeNotNull st ->
  match r with
  | inl early => dataType early = TError
  | inr st' => retTypeNotNull st'
  end.
Proof.
  intros Hr Hst. destruct elseClause as [elseClause|].
  - cbn [ExprCase_else] in Hr.
    apply outcome_bind_inv in Hr. destruct Hr as (elseExpr & _ & Hr).
    destruct (bool_decide (dataType elseExpr = TNull)) eqn:Hnull;
      cbn [negb] in Hr.
    + cbn in Hr. injection Hr as <-. exact Hst.
    + apply bool_decide_eq_false in Hnull.
      destruct (cs_retType st) as [retType|].
      * destruct (negb (typeEqV retType elseExpr false)).
        -- apply outcome_log_ret in Hr. subst r. reflexivity.
        -- cbn in Hr. injection Hr as <-. intros rt [= <-]. exact Hnull.
      * cbn in Hr. injection Hr as <-. intros rt [= <-]. exact Hnull.
  - cbn in Hr. injection Hr as <-. exact Hst.
Qed.

(** The value of a case expression is never null-typed: null branches are
    skipped when its type is chosen, and a case with no other branch is an
    error. *)
Theorem ExprCase_never_null
    (when : list WhenClause) (elseClause : option ExpressionDef)
    (fs : FieldSpace) (v : ExprValue) :
  outcome (translation ext (ExprCase when elseClause) fs) = Ok v ->
  dataType v <> TNull.
Proof.
  rewrite methods_ExprCase. unfold ExprCase_translation. intros H.
  apply outcome_bind_inv in H. destruct H as (r & Hr & H).
  apply ExprCase_whens_retType in Hr; [|intros rt; discriminate].
  destruct r as [early|st].
  - cbn in H. injection H as <-. rewrite Hr. discriminate.
  - apply outcome_bind_inv in H. destruct H as (r2 & Hr2 & H).
    apply ExprCase_else_retType in Hr2; [|exact Hr].
    destruct r2 as [early|st2].
    + cbn in H. injection H as <-. rewrite Hr2. discriminate.
    + destruct (cs_retType st2) as [retType|] eqn:Hrt.
      * cbn in H. injection H as <-. cbn. exact (Hr2 retType Hrt).
      * apply outcome_log_ret in H. subst v. discriminate.
Qed.

Lemma ExprCase_whens_returns (when : list WhenClause) (fs : FieldSpace) :
  Forall (fun c => returns (translation ext (whenThisOf c) fs)
                   /\ returns (translation ext (thenThisOf c) fs)) when ->
  forall st,
    returns (ExprCase_whens (List.map (whenClauseM ext) when) st fs).
Proof.
  induction 1 as [|[whenThis thenThis] rest [Hw Ht] _ IH]; intros st.
  - apply returns_ret.
  - cbn [List.map whenClauseM ExprCase_whens].
    apply returns_bind; [exact Hw|]. intros whenExpr _.
    apply returns_bind; [exact Ht|]. intros thenExpr _.
    destruct (negb (bool_decide (dataType thenExpr = TNull))); [|apply IH].
    destruct (cs_retType st) as [retType|]; [|apply IH].
    destruct (negb (typeEqV retType thenExpr false));
      [apply returns_log_then, returns_ret | apply IH].
Qed.

(** A case expression throws nothing of its own: when the expressions of
    its clauses translate without an exception, so does the case, with any
    number of clauses, none included. *)
Theorem ExprCase_returns
    (when : list WhenClause) (elseClause : option ExpressionDef)
    (fs : FieldSpace) :
  Forall (fun c => returns (translation ext (whenThisOf c) fs)
                   /\ returns (translation ext (thenThisOf c) fs)) when ->
  (forall e, elseClause = Some e -> returns (translation ext e fs)) ->
  returns (translation ext (ExprCase when elseClause) fs).
Proof.
  intros Hwhen Helse. rewrite methods_ExprCase. unfold ExprCase_translation.
  apply returns_bind; [apply ExprCase_whens_returns, Hwhen|].
  intros [early|st] _; [apply returns_ret|].
  apply returns_bind.
  - destruct elseClause as [e|]; [|apply returns_ret].
    cbn [option_map ExprCase_else].
    apply returns_bind; [apply (Helse e eq_refl)|]. intros elseExpr _.
    destruct (negb (bool_decide (dataType elseExpr = TNull)));
      [|apply returns_ret].
    destruct (cs_retType st) as [retType|]; [|apply returns_ret].
    destruct (negb (typeEqV retType elseExpr false));
      [apply returns_log_then, returns_ret | apply returns_ret].
  - intros [early|st2] _; [apply returns_ret|].
    destruct (cs_retType st2);
      [apply returns_ret | apply returns_log_then, returns_ret].
Qed.

Lemma ExprCase_whens_all_null (when : list WhenClause) (fs : FieldSpace) :
  Forall (fun c => returns (translation ext (whenThisOf c) fs)
                   /\ returnsType TNull (translation ext (thenThisOf c) fs))
         when ->
  forall st,
    cs_retType st = None ->
    exists st',
      outcome (ExprCase_whens (List.map (whenClauseM ext) when) st fs)
      = Ok (inr st')
      /\ cs_retType st' = None.
Proof.
  induction 1 as [|[whenThis thenThis] rest [[wv Hw] (tv & Ht & Hnull)] _ IH];
    intros st Hst.
  - exists st. split; [reflexivity | exact Hst].
  - cbn [List.map whenClauseM ExprCase_whens].
    cbn [whenThisOf thenThisOf] in Hw, Ht. unfold translation in Hw, Ht.
    rewrite (outcome_bind _ _ _ Hw), (outcome_bind _ _ _ Ht).
    rewrite Hnull. cbn [negb bool_decide decide_rel].
    rewrite bool_decide_eq_true_2 by reflexivity. cbn [negb].
    apply IH. exact Hst.
Qed.

(** A case expression whose THEN values are all null-typed, with no ELSE or
    a null-typed one, has no type: its last diagnostic is "case statement
    type not computable" and its value is error-typed. *)
Theorem ExprCase_all_null
    (when : list WhenClause) (elseClause : option ExpressionDef)
    (fs : FieldSpace) :
  Forall (fun c => returns (translation ext (whenThisOf c) fs)
                   /\ returnsType TNull (translation ext (thenThisOf c) fs))
         when ->
  (forall e, elseClause = Some e ->
             returnsType TNull (translation ext e fs)) ->
  exists l,
    translation ext (ExprCase when elseClause) fs
    = (l ++ ["case statement type not computable"],
       Ok (errorFor "typeless case")).
Proof.
  intros Hwhen Helse. rewrite methods_ExprCase. unfold ExprCase_translation.
  destruct (ExprCase_whens_all_null when fs Hwhen
              (mkCaseState None false [FText "CASE "]) eq_refl)
    as (st & Hst & Hnone).
  destruct (ExprCase_whens _ _ fs) as [l1 r1]. cbn [outcome snd] in Hst.
  subst r1. rewrite bind_ok. cbn [fst snd].
  destruct elseClause as [e|]; cbn [option_map ExprCase_else].
  - destruct (Helse e eq_refl) as (ev & Hev & Hnull).
    unfold translation in Hev.
    destruct (m_translation (methods ext e) fs) as [l2 r2].
    cbn [outcome snd] in Hev. subst r2. rewrite !bind_ok. cbn [fst snd].
    rewrite Hnull. rewrite bool_decide_eq_true_2 by reflexivity.
    cbn [negb ret fst snd cs_retType]. rewrite Hnone.
    exists (l1 ++ l2). cbn. rewrite app_nil_r, <- app_assoc. reflexivity.
  - rewrite bind_ret, Hnone. exists l1. reflexivity.
Qed.

End CaseValue.

(** ** [Pick]: application, loose typing and repeated diagnostics *)

Section PickApply.

Context (ext : External).

Lemma Pick_apply_choices_returns (choices : list PickWhen)
    (fs : FieldSpace) (v : ExpressionDef) :
  Forall (fun c =>
            returns (apply ext (whenOf c) fs "=" v)
            /\ forall p, pickOf c = Some p -> returns (translation ext p fs))
         choices ->
  returns (translation ext v fs) ->
  forall st,
    returns (Pick_apply_choices (List.map (pickWhenM ext) choices) st fs
               (operand ext v)).
Proof.
  intros Hall Hv.
  induction Hall as [|[pick when] rest [Hw Hp] _ IH]; intros st.
  - apply returns_ret.
  - cbn [List.map pickWhenM Pick_apply_choices].
    apply returns_bind; [exact Hw|]. intros whenExpr _.
    apply returns_bind.
    { destruct pick as [p|]; [exact (Hp p eq_refl) | exact Hv]. }
    intros thenExpr _.
    destruct (as_returnType st) as [returnType|]; [|apply IH].
    destruct (negb (typeEqV returnType thenExpr true));
      [apply returns_log_then, returns_ret | apply IH].
Qed.

(** Applying a pick compares every [when] with [=], whatever operator the
    pick is applied with, and throws nothing of its own: when the
    applications of the [when] clauses and the translations of the values
    return, so does the application, also for a pick with no choice and no
    else clause. *)
Theorem Pick_apply_ignores_operator
    (choices : list PickWhen) (elsePick : option ExpressionDef)
    (fs : FieldSpace) (v : ExpressionDef) :
  Forall (fun c =>
            returns (apply ext (whenOf c) fs "=" v)
            /\ forall p, pickOf c = Some p -> returns (translation ext p fs))
         choices ->
  returns (translation ext v fs) ->
  (forall e, elsePick = Some e -> returns (translation ext e fs)) ->
  forall op,
    returns (apply ext (Pick choices elsePick) fs op v)
    /\ apply ext (Pick choices elsePick) fs op v
       = apply ext (Pick choices elsePick) fs "=" v.
Proof.
  intros Hall Hv Helse op. split; [|reflexivity].
  unfold apply. rewrite methods_Pick. cbn [Pick_methods m_apply].
  unfold Pick_apply.
  apply returns_bind; [apply Pick_apply_choices_returns; assumption|].
  intros [early|st] _; [apply returns_ret|].
  apply returns_bind.
  { destruct elsePick as [e|]; [exact (Helse e eq_refl) | exact Hv]. }
  intros elseVal _.
  destruct (negb (typeEqV _ elseVal true));
    [apply returns_log_then, returns_ret | apply returns_ret].
Qed.

Lemma diagnostics_bind {A B} (m : M A) (k : A -> M B) :
  exists rest, diagnostics (bind m k) = diagnostics m ++ rest.
Proof.
  destruct m as [l [a|x]].
  - rewrite bind_ok. exists (fst (k a)). reflexivity.
  - exists []. cbn. rewrite app_nil_r. reflexivity.
Qed.

(** [Pick.translation] asks the [when] of a choice for its translation
    twice, once through [requestTranslation] and once through
    [translation], with the value in between: the diagnostics of the [when]
    of the first choice are logged both times. *)
Theorem Pick_translation_reports_when_twice
    (p w elsePick : ExpressionDef) (rest : list PickWhen) (fs : FieldSpace)
    (lrq lp lw : list string) (rv pv wv : ExprValue) :
  requestTranslation ext w fs = (lrq, Ok (Some rv)) ->
  translation ext p fs = (lp, Ok pv) ->
  translation ext w fs = (lw, Ok wv) ->
  exists more,
    diagnostics
      (translation ext (Pick (mkPickWhen (Some p) w :: rest) (Some elsePick))
         fs)
    = lrq ++ lp ++ lw ++ more.
Proof.
  intros Hrq Hp Hw. unfold translation at 1. rewrite methods_Pick.
  cbn [Pick_methods m_translation option_map]. unfold Pick_translation.
  match goal with
  | |- context [bind ?m ?k] =>
      destruct (diagnostics_bind m k) as [more ->]
  end.
  cbn [List.map pickWhenM option_map Pick_choiceValues].
  unfold requestTranslation in Hrq. unfold translation in Hp, Hw.
  rewrite Hrq, bind_ok. cbn [fst snd]. rewrite Hp, bind_ok, Hw, bind_ok.
  cbn [fst snd diagnostics].
  eexists. rewrite <- !app_assoc. reflexivity.
Qed.

Lemma Pick_choiceValues_booleans (choices : list PickWhen) (fs : FieldSpace) :
  Forall (fun c =>
            (exists rv,
               outcome (requestTranslation ext (whenOf c) fs) = Ok (Some rv))
            /\ returnsType TBoolean (translation ext (whenOf c) fs)
            /\ exists p, pickOf c = Some p
                         /\ returns (translation ext p fs))
         choices ->
  forall choiceValues,
    exists filled,
      outcome (Pick_choiceValues (List.map (pickWhenM ext) choices)
                 choiceValues fs) = Ok (inr (choiceValues ++ filled))
      /\ Forall (fun ch => dataType (choice_when ch) = TBoolean) filled.
Proof.
  induction 1
    as [|[pick when] rest ([rv Hrq] & (wv & Hw & Hbool) & (p & Hpick & [pv Hp]))
          _ IH]; intros acc.
  - exists []. rewrite app_nil_r. split; [reflexivity | constructor].
  - cbn [pickOf whenOf] in *. subst pick.
    cbn [List.map pickWhenM option_map Pick_choiceValues].
    unfold requestTranslation in Hrq. unfold translation in Hw, Hp.
    rewrite (outcome_bind _ _ _ Hrq), (outcome_bind _ _ _ Hp),
      (outcome_bind _ _ _ Hw).
    destruct (IH (acc ++ [mkChoice pv wv])) as (filled & Hout & Hall).
    exists (mkChoice pv wv :: filled). rewrite Hout, <- app_assoc.
    split; [reflexivity|]. constructor; [exact Hbool | exact Hall].
Qed.

Lemma Pick_cases_null (returnType : ExprValue) (choiceValues : list Choice) :
  dataType returnType = TNull ->
  Forall (fun ch => dataType (choice_when ch) = TBoolean) choiceValues ->
  forall anyAggregate caseValue,
    exists r,
      outcome (Pick_cases returnType choiceValues anyAggregate caseValue)
      = Ok (inr r).
Proof.
  intros Hnull. induction 1 as [|aChoice rest Hbool _ IH];
    intros anyAggregate caseValue.
  - eexists. reflexivity.
  - cbn [Pick_cases]. unfold FT.typeEq at 1. cbn [fragTypeOf ft_dataType].
    rewrite Hbool. cbn [andb orb negb].
    rewrite bool_decide_eq_true_2 by reflexivity. cbn [negb].
    unfold typeEqV, FT.typeEq. cbn [fragTypeOf ft_dataType].
    rewrite Hnull. rewrite (bool_decide_eq_true_2 (TNull = TNull)) by reflexivity.
    cbn [andb orb negb]. apply IH.
Qed.

(** The type of a pick is the type of its first value, and a null first
    value matches everything: when the first value is null-typed (and the
    [when] clauses are boolean) the other values and the else clause pass
    the type check whatever their types, and the pick is null-typed. *)
Theorem Pick_translation_null_first
    (p w elsePick : ExpressionDef) (rest : list PickWhen) (fs : FieldSpace) :
  returnsType TNull (translation ext p fs) ->
  Forall (fun c =>
            (exists rv,
               outcome (requestTranslation ext (whenOf c) fs) = Ok (Some rv))
            /\ returnsType TBoolean (translation ext (whenOf c) fs)
            /\ exists p', pickOf c = Some p'
                          /\ returns (translation ext p' fs))
         (mkPickWhen (Some p) w :: rest) ->
  returns (translation ext elsePick fs) ->
  returnsType TNull
    (translation ext (Pick (mkPickWhen (Some p) w :: rest) (Some elsePick))
       fs).
Proof.
  intros (pv & Hp & Hnull) Hall [ev Hev].
  pose proof Hall as Hall'.
  apply Forall_cons_iff in Hall'.
  destruct Hall' as [([rv Hrq] & (wv & Hw & Hbool) & _) Hrest].
  cbn [whenOf] in Hrq, Hw.
  unfold returnsType, translation at 1. rewrite methods_Pick.
  cbn [Pick_methods m_translation option_map]. unfold Pick_translation.
  cbn [List.map pickWhenM option_map Pick_choiceValues].
  unfold requestTranslation in Hrq. unfold translation in Hw, Hp, Hev.
  destruct (Pick_choiceValues_booleans rest fs Hrest ([] ++ [mkChoice pv wv]))
    as (filled & Hout & Hbools).
  assert (Hloop :
    outcome
      (pickWhen <- m_requestTranslation (methods ext w) fs ;;
       match pickWhen with
       | Some _ =>
           p0 <- m_translation (methods ext p) fs ;;
           w0 <- m_translation (methods ext w) fs ;;
           Pick_choiceValues (List.map (pickWhenM ext) rest)
             ([] ++ [mkChoice p0 w0]) fs
       | None =>
           log "pick with partial when can only be used with apply" ;;;
           ret (inl (errorFor "partial when"))
       end)
    = Ok (inr (mkChoice pv wv :: filled))).
  { rewrite (outcome_bind _ _ _ Hrq), (outcome_bind _ _ _ Hp),
      (outcome_bind _ _ _ Hw). exact Hout. }
  rewrite (outcome_bind _ _ _ Hloop). cbn [choice_pick].
  destruct (Pick_cases_null pv (mkChoice pv wv :: filled) Hnull
              ltac:(constructor; assumption) (aggregate pv) [FText "CASE"])
    as ([anyAggregate caseValue] & Hcases).
  rewrite (outcome_bind _ _ _ Hcases), (outcome_bind _ _ _ Hev).
  unfold typeEqV, FT.typeEq. cbn [fragTypeOf ft_dataType]. rewrite Hnull.
  rewrite (bool_decide_eq_true_2 (TNull = TNull)) by reflexivity.
  cbn [andb orb negb]. eexists. split; reflexivity.
Qed.

End PickApply.

(** ** [splitColumns] *)

Section SplitColumns.

Import DuckDB.

Lemma append_cons (c : ascii) (s t : string) :
  String c s +:+ t = String c (s +:+ t).
Proof. reflexivity. Qed.

Lemma append_empty (t : string) : EmptyString +:+ t = t.
Proof. reflexivity. Qed.

Lemma append_nil_r (s : string) : s +:+ EmptyString = s.
Proof.
  induction s as [|c s IH]; [reflexivity|].
  rewrite append_cons, IH. reflexivity.
Qed.

Lemma append_assoc (a b c : string) : (a +:+ b) +:+ c = a +:+ (b +:+ c).
Proof.
  induction a as [|x a IH]; [reflexivity|].
  rewrite !append_cons, IH. reflexivity.
Qed.

Lemma loop_app (a b : string) (st : SplitState) :
  loop (a +:+ b) st = loop b (loop a st).
Proof.
  revert st. induction a as [|c a IH]; intros st; [reflexivity|].
  rewrite append_cons. cbn [loop]. apply IH.
Qed.

Lemma noLeadingSpace_snoc (col : string) (c : ascii) :
  noLeadingSpace col -> (col = EmptyString -> c <> " "%char) ->
  noLeadingSpace (col +:+ String c EmptyString).
Proof.
  destruct col; intros H H'; [apply H'; reflexivity | exact H].
Qed.

Lemma step_inv (st : SplitState) (c : ascii) :
  splitInv st -> splitInv (step st c).
Proof.
  intros (Hcols & Hcol & Heat). unfold step.
  destruct (eatSpaces st && Ascii.eqb c " "%char) eqn:Hsp.
  - repeat split; assumption.
  - destruct (Z.eqb (parens st) 0 && Ascii.eqb c ","%char).
    + repeat split; cbn; try discriminate; try exact I.
      apply Forall_app. split; [exact Hcols | constructor; [exact Hcol | constructor]].
    + repeat split; cbn; try exact Hcols.
      * apply noLeadingSpace_snoc; [exact Hcol|].
        intros Hempty Hc. subst c. cbn in Hsp. rewrite andb_true_r in Hsp.
        apply (Heat Hsp Hempty).
      * intros _. destruct (column st); [rewrite append_empty | rewrite append_cons]; discriminate.
Qed.

Lemma loop_inv (s : string) : forall st, splitInv st -> splitInv (loop s st).
Proof.
  induction s as [|c s IH]; intros st H; cbn; [exact H|].
  apply IH, step_inv, H.
Qed.

(** [splitColumns] always answers at least one column, and no column
    begins with a space. *)
Theorem splitColumns_no_leading_space (s : string) :
  splitColumns s <> [] /\ Forall noLeadingSpace (splitColumns s).
Proof.
  unfold splitColumns.
  assert (H : splitInv (loop s start)).
  { apply loop_inv. repeat split; cbn; try constructor; discriminate. }
  destruct H as (Hcols & Hcol & _). split.
  - destruct (columns (loop s start)); discriminate.
  - apply Forall_app. split; [exact Hcols | constructor; [exact Hcol | constructor]].
Qed.

Lemma dropSpaces_app (a b : string) :
  dropSpaces (a +:+ b) = dropSpaces a +:+ dropSpaces b.
Proof.
  induction a as [|c a IH]; [reflexivity|].
  rewrite append_cons. cbn [dropSpaces].
  destruct (Ascii.eqb c " "%char); [exact IH|].
  rewrite append_cons, IH. reflexivity.
Qed.

Lemma concat_snoc_append (sep : string) (l : list string) (x y : string) :
  String.concat sep (l ++ [x +:+ y]) = String.concat sep (l ++ [x]) +:+ y.
Proof.
  induction l as [|a l IH]; [reflexivity|].
  destruct l as [|b l].
  - cbn [app String.concat]. rewrite !append_assoc. reflexivity.
  - change ((a :: b :: l) ++ [x +:+ y]) with (a :: (b :: l) ++ [x +:+ y]).
    change ((a :: b :: l) ++ [x]) with (a :: (b :: l) ++ [x]).
    cbn [app String.concat] in *. rewrite IH, !append_assoc. reflexivity.
Qed.

Lemma concat_snoc_empty (sep : string) (l : list string) (x : string) :
  String.concat sep ((l ++ [x]) ++ [EmptyString])
  = String.concat sep (l ++ [x]) +:+ sep.
Proof.
  induction l as [|a l IH].
  - cbn [app String.concat]. rewrite append_nil_r. reflexivity.
  - destruct l as [|b l].
    + cbn [app String.concat] in *. rewrite IH, !append_assoc. reflexivity.
    + cbn [app String.concat] in *. rewrite IH, !append_assoc. reflexivity.
Qed.

Lemma step_joined (st : SplitState) (c : ascii) :
  dropSpaces
    (String.concat "," (columns (step st c) ++ [column (step st c)]))
  = dropSpaces (String.concat "," (columns st ++ [column st]))
    +:+ dropSpaces (String c EmptyString).
Proof.
  unfold step.
  destruct (eatSpaces st && Ascii.eqb c " "%char) eqn:Hsp.
  - apply andb_true_iff in Hsp. destruct Hsp as [_ Hsp].
    cbn [dropSpaces]. rewrite Hsp, append_nil_r. reflexivity.
  - destruct (Z.eqb (parens st) 0 && Ascii.eqb c ","%char) eqn:Hcomma.
    + apply andb_true_iff in Hcomma. destruct Hcomma as [_ Hcomma].
      apply Ascii.eqb_eq in Hcomma. subst c.
      cbn [columns column]. rewrite concat_snoc_empty, dropSpaces_app.
      reflexivity.
    + cbn [columns column]. rewrite concat_snoc_append, dropSpaces_app.
      reflexivity.
Qed.

Lemma loop_joined (s : string) :
  forall st,
    dropSpaces
      (String.concat "," (columns (loop s st) ++ [column (loop s st)]))
    = dropSpaces (String.concat "," (columns st ++ [column st]))
      +:+ dropSpaces s.
Proof.
  induction s as [|c s IH]; intros st.
  - cbn [loop dropSpaces]. rewrite append_nil_r. reflexivity.
  - cbn [loop]. rewrite IH, step_joined, append_assoc.
    rewrite <- dropSpaces_app. reflexivity.
Qed.

(** Splitting loses nothing but spaces: the columns joined again by commas
    are the input, up to spaces. *)
Theorem splitColumns_join (s : string) :
  dropSpaces (String.concat "," (splitColumns s)) = dropSpaces s.
Proof. unfold splitColumns. rewrite loop_joined. reflexivity. Qed.

Lemma step_append (st : SplitState) (c : ascii) :
  eatSpaces st = false ->
  (parens st = 0%Z -> c <> ","%char) ->
  step st c = appended st (countParen c (parens st)) (String c EmptyString).
Proof.
  intros Heat Hcomma. unfold step. rewrite Heat. cbn [andb].
  destruct (Z.eqb (parens st) 0 && Ascii.eqb c ","%char) eqn:H;
    [|reflexivity].
  apply andb_true_iff in H. destruct H as [Hz Hc].
  apply Z.eqb_eq in Hz. apply Ascii.eqb_eq in Hc.
  exfalso. exact (Hcomma Hz Hc).
Qed.

Lemma occurs_cons_false (c c' : ascii) (s : string) :
  occurs c (String c' s) = false -> c' <> c /\ occurs c s = false.
Proof.
  cbn [occurs]. intros H. apply orb_false_iff in H. destruct H as [H1 H2].
  split; [|exact H2]. intros ->. rewrite Ascii.eqb_refl in H1. discriminate.
Qed.

Lemma countParen_other (c : ascii) (p : Z) :
  c <> "("%char -> c <> ")"%char -> countParen c p = p.
Proof.
  intros H1 H2. unfold countParen.
  destruct (Ascii.eqb_spec c "("%char); [contradiction|].
  destruct (Ascii.eqb_spec c ")"%char); [contradiction|]. reflexivity.
Qed.

(** Once a column is being read, a piece of text without parentheses is
    appended to it as it is when the parenthesis count is not zero, or when
    the text has no comma. *)
Lemma loop_append (t : string) :
  forall st,
    eatSpaces st = false ->
    occurs "("%char t = false -> occurs ")"%char t = false ->
    parens st <> 0%Z \/ occurs ","%char t = false ->
    loop t st = appended st (parens st) t.
Proof.
  induction t as [|c t IH]; intros st Heat Hopen Hclose Hsplit.
  - unfold appended. rewrite append_nil_r, <- Heat. destruct st; reflexivity.
  - apply occurs_cons_false in Hopen, Hclose.
    destruct Hopen as [Hc1 Hopen], Hclose as [Hc2 Hclose].
    cbn [loop]. rewrite step_append; [|exact Heat|].
    + rewrite (countParen_other _ _ Hc1 Hc2).
      rewrite IH; cbn [appended eatSpaces parens columns column];
        try reflexivity; try assumption.
      * unfold appended. cbn [columns column].
        rewrite append_assoc. reflexivity.
      * destruct Hsplit as [Hp | Hcomma]; [left; exact Hp|].
        right. apply occurs_cons_false in Hcomma. apply Hcomma.
    + intros Hz. destruct Hsplit as [Hp | Hcomma]; [contradiction|].
      apply occurs_cons_false in Hcomma. apply Hcomma.
Qed.

Lemma step_start (c : ascii) :
  Ascii.eqb c " "%char = false -> c <> ","%char ->
  step start c
  = mkSplitState [] (countParen c 0) (String c EmptyString) false.
Proof.
  intros Hsp Hcomma. unfold step. cbn [start eatSpaces andb parens].
  rewrite Hsp. destruct (Ascii.eqb_spec c ","%char); [contradiction|].
  reflexivity.
Qed.

Lemma dropLeadingSpaces_fixed (c : ascii) (t : string) :
  dropLeadingSpaces (String c t) = String c t ->
  Ascii.eqb c " "%char = false.
Proof.
  cbn [dropLeadingSpaces]. destruct (Ascii.eqb c " "%char); [|reflexivity].
  intros Hlead. exfalso.
  assert (Hlen : forall u, String.length (dropLeadingSpaces u)
                           <= String.length u).
  { induction u as [|d u IHu]; cbn; [lia|].
    destruct (Ascii.eqb d " "%char); cbn; lia. }
  specialize (Hlen t). rewrite Hlead in Hlen. cbn in Hlen. lia.
Qed.

Lemma loop_start_leading (s : string) :
  loop s start = loop (dropLeadingSpaces s) start.
Proof.
  induction s as [|c s IH]; [reflexivity|].
  cbn [dropLeadingSpaces]. destruct (Ascii.eqb c " "%char) eqn:Hc; [|reflexivity].
  cbn [loop]. unfold step. cbn [start eatSpaces andb]. rewrite Hc. exact IH.
Qed.

Lemma loop_no_comma (t : string) :
  forall st,
    eatSpaces st = false ->
    occurs ","%char t = false ->
    exists p, loop t st = appended st p t.
Proof.
  induction t as [|c t IH]; intros st Heat Hcomma.
  - exists (parens st). unfold appended.
    rewrite append_nil_r, <- Heat. destruct st; reflexivity.
  - apply occurs_cons_false in Hcomma. destruct Hcomma as [Hc Hcomma].
    cbn [loop]. rewrite step_append; [|exact Heat | intros _; exact Hc].
    destruct (IH (appended st (countParen c (parens st)) (String c EmptyString))
                eq_refl Hcomma) as [p ->].
    exists p. unfold appended. cbn [columns column].
    rewrite append_assoc. reflexivity.
Qed.

(** A text with no comma is one column: the text without the spaces it
    begins with. *)
Theorem splitColumns_single (s : string) :
  occurs ","%char s = false ->
  splitColumns s = [dropLeadingSpaces s].
Proof.
  intros Hcomma. unfold splitColumns. rewrite loop_start_leading.
  assert (Hocc : forall t, occurs ","%char t = false ->
                           occurs ","%char (dropLeadingSpaces t) = false).
  { induction t as [|c t IHt]; [reflexivity|]. intros Ht.
    cbn [dropLeadingSpaces]. destruct (Ascii.eqb c " "%char); [|exact Ht].
    apply IHt. apply occurs_cons_false in Ht. apply Ht. }
  assert (Hidem : forall t, dropLeadingSpaces (dropLeadingSpaces t)
                            = dropLeadingSpaces t).
  { induction t as [|c t IHt]; [reflexivity|]. cbn [dropLeadingSpaces].
    destruct (Ascii.eqb c " "%char) eqn:Hc; [exact IHt|].
    cbn [dropLeadingSpaces]. rewrite Hc. reflexivity. }
  specialize (Hocc s Hcomma). specialize (Hidem s).
  destruct (dropLeadingSpaces s) as [|c t]; [reflexivity|].
  apply dropLeadingSpaces_fixed in Hidem.
  apply occurs_cons_false in Hocc. destruct Hocc as [Hc1 Hc].
  cbn [loop]. rewrite (step_start _ Hidem Hc1).
  destruct (loop_no_comma t (mkSplitState [] (countParen c 0)
                               (String c EmptyString) false) eq_refl Hc)
    as [p ->].
  reflexivity.
Qed.

(** Commas between parentheses do not split: a name followed by a
    parenthesised list is one column, as the comment of the function says
    for nested STRUCT declarations. *)
Theorem splitColumns_keeps_parenthesised (name mid : string) :
  name <> EmptyString ->
  dropLeadingSpaces name = name ->
  occurs ","%char name = false ->
  occurs "("%char name = false -> occurs ")"%char name = false ->
  occurs "("%char mid = false -> occurs ")"%char mid = false ->
  splitColumns (name +:+ "(" +:+ mid +:+ ")")
  = [name +:+ "(" +:+ mid +:+ ")"].
Proof.
  intros Hne Hlead Hcomma Hopen Hclose Hmo Hmc.
  destruct name as [|c name]; [contradiction|].
  apply dropLeadingSpaces_fixed in Hlead.
  apply occurs_cons_false in Hcomma, Hopen, Hclose.
  destruct Hcomma as [Hc1 Hcomma], Hopen as [Ho1 Hopen],
    Hclose as [Hcl1 Hclose].
  unfold splitColumns. rewrite append_cons. cbn [loop].
  rewrite (step_start _ Hlead Hc1), (countParen_other _ _ Ho1 Hcl1).
  rewrite loop_app.
  rewrite (loop_append name); cbn [eatSpaces parens]; try assumption;
    try reflexivity; [|right; exact Hcomma].
  cbn [appended columns column append loop].
  change ("(" +:+ mid +:+ ")") with (String "(" (mid +:+ ")")).
  cbn [loop]. rewrite step_append; cbn [eatSpaces parens];
    [|reflexivity | discriminate].
  rewrite loop_app.
  rewrite (loop_append mid); cbn [appended eatSpaces parens countParen];
    try assumption; try reflexivity; [|left; discriminate].
  cbn [loop Ascii.eqb Bool.eqb]. rewrite step_append;
    cbn [eatSpaces parens]; [|reflexivity | discriminate].
  cbn [appended columns column app].
  rewrite !append_assoc. reflexivity.
Qed.

(** A closing parenthesis with no opening one before it leaves the
    parenthesis count at minus one: no comma after it splits. *)
Theorem splitColumns_unbalanced (t : string) :
  occurs "("%char t = false -> occurs ")"%char t = false ->
  splitColumns (")" +:+ t) = [")" +:+ t].
Proof.
  intros Hopen Hclose. unfold splitColumns.
  change (")" +:+ t) with (String ")" t). cbn [loop].
  rewrite loop_append; try assumption; try reflexivity.
  left. discriminate.
Qed.

End SplitColumns.

(** ** The theorems above on concrete inputs *)

Lemma thisValueToTimestamp_is_timestamp_witness :
  translation Sample.ext (ExprTime TimeDate (inr "2020-01-01") false) Sample.fs
  = ([], Ok (mkExprValue TDate false [FText "'2020-01-01'"] None))
  /\ exists l' v',
       translation Sample.ext
         (thisValueToTimestamp (ExprTime TimeDate (inr "2020-01-01") false)
            (mkExprValue TDate false [FText "'2020-01-01'"] None))
         Sample.fs = (l', Ok v')
       /\ dataType v' = TTimestamp.
Proof.
  split; [reflexivity|].
  destruct (thisValueToTimestamp_is_timestamp Sample.ext
              (ExprTime TimeDate (inr "2020-01-01") false) Sample.fs []
              (mkExprValue TDate false [FText "'2020-01-01'"] None) eq_refl)
    as (l' & v' & H1 & H2 & _).
  exists l', v'. split; assumption.
Defined.

Lemma fieldDef_type_is_atomic_witness :
  ExpressionFieldDef_fieldDef Sample.ext
    (ExprCast (ExprTime TimeTimestamp (inr "2020-01-01 10:00") false)
       CastDate false)
    None Sample.fs "day"
  = ([], Ok (mkFieldTypeDef "day" TDate
               (Some [FText "DATE('2020-01-01 10:00')"]) None None None))
  /\ isAtomicFieldType TDate = true.
Proof.
  assert (H : ExpressionFieldDef_fieldDef Sample.ext
                (ExprCast (ExprTime TimeTimestamp (inr "2020-01-01 10:00") false)
                   CastDate false)
                None Sample.fs "day"
              = ([], Ok (mkFieldTypeDef "day" TDate
                           (Some [FText "DATE('2020-01-01 10:00')"])
                           None None None))) by reflexivity.
  split; [exact H|].
  exact (proj1 (fieldDef_type_is_atomic Sample.ext _ _ _ _ _ _ H)).
Defined.

Lemma fieldDef_of_non_atomic_witness :
  translation Sample.ext ExprNULL Sample.fs
  = ([], Ok (mkExprValue TNull false [FText "NULL"] None))
  /\ ExpressionFieldDef_fieldDef Sample.ext ExprNULL None Sample.fs "nothing"
     = (["Cannot define nothing, unexpected type null"],
        Ok (mkFieldTypeDef "error_defining_nothing" TString
              None None None None)).
Proof.
  split; [reflexivity|].
  apply (fieldDef_of_non_atomic Sample.ext ExprNULL None Sample.fs "nothing"
           [] (mkExprValue TNull false [FText "NULL"] None));
    reflexivity.
Defined.

Lemma ExprFilter_on_aggregate_witness :
  translation Sample.ext (ExprField "sold") Sample.fs
  = ([], Ok (mkExprValue TNumber true [FField "sold"] None))
  /\ translation Sample.ext
       (ExprFilter (ExprField "sold")
          (Sample.filterOf [mkFilterCond [FText "year = 2020"] false]))
       Sample.fs
     = ([], Ok (mkExprValue TNumber true
                  [FFilterExpression [FField "sold"]
                     [mkFilterCond [FText "year = 2020"] false]] None)).
Proof.
  split; [reflexivity|].
  apply (ExprFilter_on_aggregate Sample.ext (ExprField "sold")
           (Sample.filterOf [mkFilterCond [FText "year = 2020"] false])
           Sample.fs [] [] [mkFilterCond [FText "year = 2020"] false]
           (mkExprValue TNumber true [FField "sold"] None)
           eq_refl eq_refl).
  - intros c [Hc | []]. rewrite <- Hc. reflexivity.
  - reflexivity.
Defined.

Lemma ExprLogicalOp_own_diagnostic_witness :
  translation Sample.ext (Boolean true) Sample.fs
  = ([], Ok (mkExprValue TBoolean false [FText "true"] None))
  /\ translation Sample.ext (ExprNumber "1") Sample.fs
     = ([], Ok (mkExprValue TNumber false [FText "1"] None))
  /\ exists own v,
       translation Sample.ext
         (ExprLogicalOp (Boolean true) OpAnd (ExprNumber "1")) Sample.fs
       = ([] ++ [] ++ own, Ok v).
Proof.
  split; [reflexivity|]. split; [reflexivity|].
  destruct (ExprLogicalOp_own_diagnostic Sample.ext (Boolean true)
              (ExprNumber "1") OpAnd Sample.fs [] []
              (mkExprValue TBoolean false [FText "true"] None)
              (mkExprValue TNumber false [FText "1"] None) eq_refl eq_refl)
    as (own & v & H & _).
  exists own, v. exact H.
Defined.

Lemma ExprMinus_nested_is_parenthesised_witness :
  translation Sample.ext (ExprField "x") Sample.fs
  = ([], Ok (mkExprValue TNumber false [FField "x"] None))
  /\ exists inner,
       translation Sample.ext (ExprMinus (ExprMinus (ExprField "x")))
         Sample.fs
       = ([], Ok (setValue (mkExprValue TNumber false [FField "x"] None)
                    ([FText "-("] ++ inner ++ [FText ")"]))).
Proof.
  split; [reflexivity|].
  destruct (ExprMinus_nested_is_parenthesised Sample.ext (ExprField "x")
              Sample.fs [] (mkExprValue TNumber false [FField "x"] None)
              eq_refl eq_refl ltac:(discriminate))
    as (inner & _ & H).
  exists inner. exact H.
Defined.

Lemma aggregate_source_overrides_expression_witness :
  translation Sample.ext (ExprString "ignored") Sample.fs
  = ([], Ok (mkExprValue TString false [FText "ignored"] None))
  /\ translation Sample.ext (ExprSum (Some (ExprString "ignored")) (Some "x"))
       Sample.fs
     = ([], Ok (mkExprValue TNumber true
                  [FAggregate "sum" [FField "x"] None] None)).
Proof.
  split; [reflexivity|].
  apply (proj1 (aggregate_source_overrides_expression Sample.ext
                  (Some (ExprString "ignored")) "x"
                  (mkFieldEntry TNumber false) Sample.fs []
                  (ex_intro _ _ eq_refl) eq_refl eq_refl eq_refl)).
Defined.

Lemma aggregate_without_expression_witness :
  translation Sample.ext (ExprSum None (Some "unknown")) Sample.fs
  = (["Missing expression for aggregate function"],
     Ok (errorFor "agggregate without expression")).
Proof.
  apply (proj1 (aggregate_without_expression Sample.ext (Some "unknown")
                  Sample.fs
                  ltac:(intros src entry [= <-] H; discriminate H))).
Defined.

Lemma ExprCase_never_null_witness :
  outcome (translation Sample.ext
             (ExprCase [mkWhenClause (Boolean true) ExprNULL]
                       (Some (ExprNumber "0")))
             Sample.fs)
  = Ok (mkExprValue TNumber false
          [FText "CASE "; FText "WHEN "; FText "true"; FText " THEN ";
           FText "NULL"; FText " ELSE "; FText "0"; FText " END"] None)
  /\ TNumber <> TNull.
Proof.
  split; [reflexivity|].
  apply (ExprCase_never_null Sample.ext
           [mkWhenClause (Boolean true) ExprNULL] (Some (ExprNumber "0"))
           Sample.fs
           (mkExprValue TNumber false
              [FText "CASE "; FText "WHEN "; FText "true"; FText " THEN ";
               FText "NULL"; FText " ELSE "; FText "0"; FText " END"] None)).
  reflexivity.
Defined.

Lemma ExprCase_returns_witness :
  returns (translation Sample.ext (ExprCase [] None) Sample.fs).
Proof.
  apply (ExprCase_returns Sample.ext [] None Sample.fs).
  - constructor.
  - intros e H. discriminate H.
Defined.

Lemma ExprCase_all_null_witness :
  exists l,
    translation Sample.ext
      (ExprCase [mkWhenClause (Boolean true) ExprNULL] (Some ExprNULL))
      Sample.fs
    = (l ++ ["case statement type not computable"],
       Ok (errorFor "typeless case")).
Proof.
  apply (ExprCase_all_null Sample.ext
           [mkWhenClause (Boolean true) ExprNULL] (Some ExprNULL) Sample.fs).
  - repeat constructor.
    + eexists. reflexivity.
    + eexists. split; reflexivity.
  - intros e [= <-]. eexists. split; reflexivity.
Defined.

Lemma Pick_apply_ignores_operator_witness :
  returns (apply Sample.ext
             (Pick [mkPickWhen (Some (ExprString "'low'"))
                      (Range (ExprNumber "1") (ExprNumber "10"))]
                   (Some (ExprString "'high'")))
             Sample.fs ">" (ExprField "x"))
  /\ apply Sample.ext
       (Pick [mkPickWhen (Some (ExprString "'low'"))
                (Range (ExprNumber "1") (ExprNumber "10"))]
             (Some (ExprString "'high'")))
       Sample.fs ">" (ExprField "x")
     = ([], Ok (mkExprValue TString false
                  [FText "CASE"; FText " WHEN "; FField "x"; FText " >= ";
                   FText "1"; FText " and "; FField "x"; FText " < ";
                   FText "10"; FText " THEN "; FText "'low'";
                   FText " ELSE "; FText "'high'"; FText " END"] None)).
Proof.
  destruct (Pick_apply_ignores_operator Sample.ext
              [mkPickWhen (Some (ExprString "'low'"))
                 (Range (ExprNumber "1") (ExprNumber "10"))]
              (Some (ExprString "'high'")) Sample.fs (ExprField "x"))
    with (op := ">") as [Hret Heq].
  - repeat constructor.
    + eexists. reflexivity.
    + intros p [= <-]. eexists. reflexivity.
  - eexists. reflexivity.
  - intros e [= <-]. eexists. reflexivity.
  - split; [exact Hret|]. rewrite Heq. reflexivity.
Defined.

Lemma Pick_translation_reports_when_twice_witness :
  translation Sample.ext (ExprNot (ExprNumber "1")) Sample.fs
  = (["'not' Can't use type number"], Ok (errorFor "not requires boolean"))
  /\ exists more,
       diagnostics
         (translation Sample.ext
            (Pick [mkPickWhen (Some (ExprNumber "2"))
                     (ExprNot (ExprNumber "1"))]
                  (Some (ExprNumber "0")))
            Sample.fs)
       = ["'not' Can't use type number"] ++ []
         ++ ["'not' Can't use type number"] ++ more.
Proof.
  split; [reflexivity|].
  apply (Pick_translation_reports_when_twice Sample.ext
           (ExprNumber "2") (ExprNot (ExprNumber "1")) (ExprNumber "0") []
           Sample.fs ["'not' Can't use type number"] []
           ["'not' Can't use type number"]
           (errorFor "not requires boolean")
           (mkExprValue TNumber false [FText "2"] None)
           (errorFor "not requires boolean")); reflexivity.
Defined.

Lemma Pick_translation_null_first_witness :
  returnsType TNull
    (translation Sample.ext
       (Pick [mkPickWhen (Some ExprNULL) (Boolean true);
              mkPickWhen (Some (ExprString "'a'")) (Boolean false)]
             (Some (ExprNumber "0")))
       Sample.fs).
Proof.
  apply (Pick_translation_null_first Sample.ext ExprNULL (Boolean true)
           (ExprNumber "0")
           [mkPickWhen (Some (ExprString "'a'")) (Boolean false)] Sample.fs).
  - eexists. split; reflexivity.
  - repeat constructor;
      try (eexists; reflexivity);
      try (eexists; split; reflexivity);
      try (eexists; split; [reflexivity | eexists; reflexivity]).
  - eexists. reflexivity.
Defined.

Lemma splitColumns_single_witness :
  DuckDB.splitColumns "  a DECIMAL(18)" = ["a DECIMAL(18)"].
Proof.
  apply (splitColumns_single "  a DECIMAL(18)"). reflexivity.
Defined.

Lemma splitColumns_keeps_parenthesised_witness :
  DuckDB.splitColumns "a STRUCT(b INTEGER, c VARCHAR)"
  = ["a STRUCT(b INTEGER, c VARCHAR)"].
Proof.
  apply (splitColumns_keeps_parenthesised "a STRUCT" "b INTEGER, c VARCHAR");
    try reflexivity.
  discriminate.
Defined.

Lemma splitColumns_unbalanced_witness :
  DuckDB.splitColumns ") a INTEGER, b VARCHAR"
  = [") a INTEGER, b VARCHAR"].
Proof.
  apply (splitColumns_unbalanced " a INTEGER, b VARCHAR"); reflexivity.
Defined.

(** The columns of a struct, its nested struct kept whole. *)
Example splitColumns_struct :
  DuckDB.splitColumns "a INTEGER, b STRUCT(c INTEGER, d VARCHAR),  e DATE"
  = ["a INTEGER"; "b STRUCT(c INTEGER, d VARCHAR)"; "e DATE"].
Proof. reflexivity. Qed.
